(** * SNAP-GraphVis: the graph preprocessing, filtering, focus and layout
      bookkeeping of [D3js_Project/script.js], embedded and verified.

    The class [NetworkVisualization] keeps one mutable object graph: node
    objects shared between [data], [filteredData], the links' endpoints, the
    neighbour sets and [currentHighlighted].  The embedding keeps that sharing:
    node objects live in a heap (a list indexed by reference) and every other
    structure holds references into it.

    Numbers the script computes with are modelled as rationals ([Q]), its
    counters as [nat] and numeric ids as integers; the properties proved here
    only use order, equality and clamping of such numbers.  Rendering, zoom
    buttons, tooltips, image export and window resizing are left out. *)

From Stdlib Require Import ZArith QArith Qround Qminmax Lqa Permutation Sorted.
From stdpp Require Import base gmap sets list sorting strings pretty.

Set Warnings "-register-all,-clear-no-such-hyp".

Local Open Scope Z_scope.
Local Open Scope nat_scope.

(** ** Identifiers and JSON values *)

(** A node identifier, as it comes out of the JSON input: a number or a
    string.  [===] and [Map]/[Set] key equality coincide on both. *)
Inductive ident : Type :=
  | IdNum (z : Z)
  | IdStr (s : string).

#[global] Instance ident_eq_dec : EqDecision ident.
Proof. solve_decision. Defined.

#[global] Instance ident_countable : Countable ident.
Proof.
  refine (inj_countable'
    (fun i => match i with IdNum z => inl z | IdStr s => inr s end)
    (fun s => match s with inl z => IdNum z | inr s => IdStr s end) _).
  by intros [].
Defined.

(** [id.toString()]. *)
Definition toString (i : ident) : string :=
  match i with
  | IdNum z => pretty z
  | IdStr s => s
  end.

(** A value produced by [JSON.parse]. *)
Inductive json : Type :=
  | JNull
  | JBool (b : bool)
  | JNum (q : Q)
  | JStr (s : string)
  | JArr (items : list json)
  | JObj (fields : list (string * json)).

(** A JavaScript value held in a node field: [None] is [undefined]. *)
Definition jsval : Type := option json.

(** ** Input data and configuration *)

(** A node object of the input.  [raw_degree] is its [degree] property:
    absent in loaded data, set by the ranking step's [{...node, degree}]. *)
Record rawNode : Type := RawNode {
  raw_id : ident;
  raw_group : option Z;
  raw_degree : option nat
}.

Record rawLink : Type := RawLink {
  raw_source : ident;
  raw_target : ident
}.

Record rawData : Type := RawData {
  raw_nodes : list rawNode;
  raw_links : list rawLink
}.

#[global] Instance rawLink_eq_dec : EqDecision rawLink.
Proof. solve_decision. Defined.

(** [this.config]. *)
Record Config : Type := MkConfig {
  width : Q;
  height : Q;
  chargeStrength : Q;
  linkDistance : Q;
  nodeRadius : Q;
  maxNodes : nat;
  minNodeRadius : Q;
  maxNodeRadius : Q;
  simulationAlpha : Q;
  simulationDecay : Q
}.

(** The constructor's configuration for a window of the given inner size. *)
Definition defaultConfig (innerWidth innerHeight : Q) : Config :=
  {| width := innerWidth;
     height := innerHeight - 120;
     chargeStrength := -30;
     linkDistance := 80;
     nodeRadius := 4;
     maxNodes := 2000;
     minNodeRadius := 2;
     maxNodeRadius := 6;
     simulationAlpha := 3 # 10;
     simulationDecay := 2 # 100 |}.

(** ** Ranking by degree: [preprocessData], lines 66-84 *)

(** [nodeDegrees]: one counter per id met as a link endpoint. *)
Definition bump (k : ident) (m : gmap ident nat) : gmap ident nat :=
  <[k := default 0 (m !! k) + 1]> m.

Definition nodeDegrees (links : list rawLink) : gmap ident nat :=
  foldl (fun m l => bump (raw_target l) (bump (raw_source l) m)) ∅ links.

(** [Array.prototype.sort] with the comparator [(a, b) => b.degree - a.degree].
    The sort is stable and the comparator is a total preorder on the keys, so
    the result is the one list that is ordered by key, descending, and keeps
    equal keys in input order; insertion from the right computes it. *)
Section Sort.
Context {A : Type} (key : A -> nat).

Fixpoint insertDesc (a : A) (l : list A) : list A :=
  match l with
  | [] => [a]
  | b :: l' => if (key b <=? key a)%nat then a :: b :: l'
               else b :: insertDesc a l'
  end.

Fixpoint sortDesc (l : list A) : list A :=
  match l with
  | [] => []
  | a :: l' => insertDesc a (sortDesc l')
  end.
End Sort.

Definition rankKey (n : rawNode) : nat := default 0 (raw_degree n).

Definition withDegree (deg : gmap ident nat) (n : rawNode) : rawNode :=
  {| raw_id := raw_id n;
     raw_group := raw_group n;
     raw_degree := Some (default 0 (deg !! raw_id n)) |}.

Definition sortedNodes (maxN : nat) (raw : rawData) : list rawNode :=
  take maxN (sortDesc rankKey
               (map (withDegree (nodeDegrees (raw_links raw))) (raw_nodes raw))).

Definition selectedNodeIds (nodes : list rawNode) : gset ident :=
  list_to_set (map raw_id nodes).

Definition selectLinks (sel : gset ident) (links : list rawLink) : list rawLink :=
  filter (fun l => raw_source l ∈ sel ∧ raw_target l ∈ sel) links.

(** The node and link arrays after the truncation step. *)
Definition truncate (maxN : nat) (raw : rawData) : list rawNode * list rawLink :=
  if (maxN <? length (raw_nodes raw))%nat then
    let sorted := sortedNodes maxN raw in
    (sorted, selectLinks (selectedNodeIds sorted) (raw_links raw))
  else (raw_nodes raw, raw_links raw).

(** ** Node and link objects: [preprocessData], lines 86-134 *)

(** A processed node object.  [n_neighbors] is the [Set] of neighbour node
    objects, held as references into the heap; [n_fx]/[n_fy] are the pin
    coordinates, [undefined] until a drag or an import writes them. *)
Record node : Type := Node {
  n_id : ident;
  n_group : Z;
  n_degree : nat;
  n_neighbors : gset nat;
  n_x : jsval;
  n_y : jsval;
  n_fx : jsval;
  n_fy : jsval;
  n_originalData : rawNode;
  n_radius : Q
}.

(** A processed link object: its endpoints are node objects (references). *)
Record link : Type := Link {
  l_source : nat;
  l_target : nat;
  l_originalData : rawLink
}.

(** [{nodes, links}], as in [this.data] and [this.filteredData]; the node
    array holds references. *)
Record Graph : Type := MkGraph {
  nodes : list nat;
  links : list link
}.

Definition addNeighbor (other : nat) (n : node) : node :=
  Node (n_id n) (n_group n) (n_degree n) ({[other]} ∪ n_neighbors n)
       (n_x n) (n_y n) (n_fx n) (n_fy n) (n_originalData n) (n_radius n).

Definition incDegree (n : node) : node :=
  Node (n_id n) (n_group n) (S (n_degree n)) (n_neighbors n)
       (n_x n) (n_y n) (n_fx n) (n_fy n) (n_originalData n) (n_radius n).

Definition setRadius (r : Q) (n : node) : node :=
  Node (n_id n) (n_group n) (n_degree n) (n_neighbors n)
       (n_x n) (n_y n) (n_fx n) (n_fy n) (n_originalData n) r.

Definition setPosition (x y fx fy : jsval) (n : node) : node :=
  Node (n_id n) (n_group n) (n_degree n) (n_neighbors n)
       x y fx fy (n_originalData n) (n_radius n).

(** [new Map(processedNodes.map(d => [d.id, d]))]: a later node with the same
    id replaces an earlier one. *)
Fixpoint indexFrom (k : nat) (heap : list node) (m : gmap ident nat)
  : gmap ident nat :=
  match heap with
  | [] => m
  | n :: heap' => indexFrom (S k) heap' (<[n_id n := k]> m)
  end.

Definition nodeById (heap : list node) : gmap ident nat := indexFrom 0 heap ∅.

(** The body of [links.map(link => ...)], lines 103-119, together with the
    [.filter(Boolean)] that drops the [null] results: the heap is mutated,
    and the link object is appended when both endpoints resolve. *)
Definition processLink (byId : gmap ident nat)
    (acc : list node * list link) (l : rawLink) : list node * list link :=
  match byId !! raw_source l, byId !! raw_target l with
  | Some s, Some t =>
      let h1 := alter (addNeighbor t) s acc.1 in
      let h2 := alter (addNeighbor s) t h1 in
      let h3 := alter incDegree s h2 in
      let h4 := alter incDegree t h3 in
      (h4, acc.2 ++ [Link s t l])
  | _, _ => acc
  end.

Definition processLinks (heap : list node) (ls : list rawLink)
  : list node * list link :=
  foldl (processLink (nodeById heap)) (heap, []) ls.

Section Build.
Variable cfg : Config.
(** [Math.random()]: the successive draws, read at a cursor. *)
Variable rnd : nat -> Q.

(** The object literal of lines 87-97; the draws are made in property
    order: group (when the input has none, or a falsy one), x, y. *)
Definition newNode (n : rawNode) (k : nat) : node * nat :=
  let '(g, k1) :=
    match raw_group n with
    | Some g => if (g =? 0)%Z then (Qfloor (rnd k * 10), S k) else (g, k)
    | None => (Qfloor (rnd k * 10), S k)
    end in
  (Node (raw_id n) g 0 ∅
        (Some (JNum (rnd k1 * width cfg)))
        (Some (JNum (rnd (S k1) * height cfg)))
        None None n 0,
   S (S k1)).

Fixpoint processNodes (ns : list rawNode) (k : nat) : list node * nat :=
  match ns with
  | [] => ([], k)
  | n :: ns' =>
      let '(p, k1) := newNode n k in
      let '(ps, k2) := processNodes ns' k1 in
      (p :: ps, k2)
  end.

(** [Math.max(minNodeRadius, Math.min(maxNodeRadius, degree / 3))]. *)
Definition radiusOf (degree : nat) : Q :=
  Qmax (minNodeRadius cfg)
       (Qmin (maxNodeRadius cfg) (inject_Z (Z.of_nat degree) / 3)).

Definition computeRadius (n : node) : node :=
  setRadius (radiusOf (n_degree n)) n.

(** [preprocessData(rawData)]: the heap of node objects it creates and the
    graph [{nodes, links}] it returns. *)
Definition preprocessData (raw : rawData) : list node * Graph :=
  let '(ns, ls) := truncate (maxNodes cfg) raw in
  let processedNodes := (processNodes ns 0).1 in
  let '(heap, processedLinks) := processLinks processedNodes ls in
  let heap' := map computeRadius heap in
  (heap', MkGraph (seq 0 (length heap')) processedLinks).
End Build.

(** ** The simulation handle and the rendered elements *)

(** What the script has handed to the d3-force simulation: the node and link
    arrays, the force parameters, the cooling parameter and whether the timer
    runs.  A strength parsed from a slider is [None] when [parseInt] gives
    [NaN].  The collision force is a function of each node's radius and has no
    field.  d3 itself writes node positions on its timer ticks and when it
    is handed a node array (a pinned node is put on its pin); these writes
    are not steps of this model, which records what the script writes. *)
Record Simulation : Type := MkSimulation {
  sim_nodes : list nat;
  sim_links : list link;
  sim_charge : option Q;
  sim_linkDistance : option Q;
  sim_center : Q * Q;
  sim_alpha : Q;
  sim_alphaTarget : Q;
  sim_alphaDecay : Q;
  sim_running : bool
}.

(** A [circle.node] element: the datum bound to it, its classes and its
    position attributes ([None]: attribute absent). *)
Record nodeElem : Type := NodeElem {
  ne_datum : nat;
  ne_highlighted : bool;
  ne_neighbor : bool;
  ne_hidden : bool;
  ne_cx : jsval;
  ne_cy : jsval
}.

(** A [line.link] element. *)
Record linkElem : Type := LinkElem {
  le_datum : link;
  le_highlighted : bool;
  le_hidden : bool;
  le_x1 : jsval;
  le_y1 : jsval;
  le_x2 : jsval;
  le_y2 : jsval
}.

(** The zoom transform last requested: the identity, or scale 2 centred on a
    position (the translation is computed by d3 from these coordinates). *)
Inductive zoomT : Type :=
  | ZoomIdentity
  | ZoomCentered (x y : jsval).

(** The [alert] dialogs of the script. *)
Inductive alert : Type :=
  | AlertNotFound (searchId : string)
  | AlertLayoutFormat.

(** The fields of a [NetworkVisualization] whose [init()] has completed,
    the heap of its node objects, and what it has shown to the user. *)
Record State : Type := MkState {
  config : Config;
  heap : list node;
  data : Graph;
  filteredData : Graph;
  currentHighlighted : option nat;
  simulation : Simulation;
  nodeGroup : list nodeElem;
  linkGroup : list linkElem;
  isPaused : bool;
  detailNode : option nat;
  detailActive : bool;
  zoom : zoomT;
  alerts : list alert
}.

#[global] Instance node_inhabited : Inhabited node :=
  populate (Node (IdNum 0) 0 0 ∅ None None None None
                 (RawNode (IdNum 0) None None) 0).

(** Dereferencing a node object. *)
Definition nodeAt (st : State) (r : nat) : node := heap st !!! r.

Definition set_heap (h : list node) (st : State) : State :=
  MkState (config st) h (data st) (filteredData st) (currentHighlighted st)
          (simulation st) (nodeGroup st) (linkGroup st) (isPaused st)
          (detailNode st) (detailActive st) (zoom st) (alerts st).

Definition set_filteredData (g : Graph) (st : State) : State :=
  MkState (config st) (heap st) (data st) g (currentHighlighted st)
          (simulation st) (nodeGroup st) (linkGroup st) (isPaused st)
          (detailNode st) (detailActive st) (zoom st) (alerts st).

Definition set_currentHighlighted (c : option nat) (st : State) : State :=
  MkState (config st) (heap st) (data st) (filteredData st) c
          (simulation st) (nodeGroup st) (linkGroup st) (isPaused st)
          (detailNode st) (detailActive st) (zoom st) (alerts st).

Definition set_simulation (s : Simulation) (st : State) : State :=
  MkState (config st) (heap st) (data st) (filteredData st)
          (currentHighlighted st) s (nodeGroup st) (linkGroup st)
          (isPaused st) (detailNode st) (detailActive st) (zoom st)
          (alerts st).

Definition set_nodeGroup (es : list nodeElem) (st : State) : State :=
  MkState (config st) (heap st) (data st) (filteredData st)
          (currentHighlighted st) (simulation st) es (linkGroup st)
          (isPaused st) (detailNode st) (detailActive st) (zoom st)
          (alerts st).

Definition set_linkGroup (es : list linkElem) (st : State) : State :=
  MkState (config st) (heap st) (data st) (filteredData st)
          (currentHighlighted st) (simulation st) (nodeGroup st) es
          (isPaused st) (detailNode st) (detailActive st) (zoom st)
          (alerts st).

Definition set_isPaused (b : bool) (st : State) : State :=
  MkState (config st) (heap st) (data st) (filteredData st)
          (currentHighlighted st) (simulation st) (nodeGroup st)
          (linkGroup st) b (detailNode st) (detailActive st) (zoom st)
          (alerts st).

Definition set_detail (n : option nat) (active : bool) (st : State) : State :=
  MkState (config st) (heap st) (data st) (filteredData st)
          (currentHighlighted st) (simulation st) (nodeGroup st)
          (linkGroup st) (isPaused st) n active (zoom st) (alerts st).

Definition set_zoom (z : zoomT) (st : State) : State :=
  MkState (config st) (heap st) (data st) (filteredData st)
          (currentHighlighted st) (simulation st) (nodeGroup st)
          (linkGroup st) (isPaused st) (detailNode st) (detailActive st) z
          (alerts st).

(** [alert(...)]. *)
Definition raiseAlert (a : alert) (st : State) : State :=
  MkState (config st) (heap st) (data st) (filteredData st)
          (currentHighlighted st) (simulation st) (nodeGroup st)
          (linkGroup st) (isPaused st) (detailNode st) (detailActive st)
          (zoom st) (alerts st ++ [a]).

(** *** The d3-force calls the script makes *)

Module Sim.
(** [simulation.nodes(ns)]. *)
Definition setNodes (ns : list nat) (s : Simulation) : Simulation :=
  MkSimulation ns (sim_links s) (sim_charge s) (sim_linkDistance s)
               (sim_center s) (sim_alpha s) (sim_alphaTarget s)
               (sim_alphaDecay s) (sim_running s).

(** [simulation.force("link").links(ls)]. *)
Definition setLinks (ls : list link) (s : Simulation) : Simulation :=
  MkSimulation (sim_nodes s) ls (sim_charge s) (sim_linkDistance s)
               (sim_center s) (sim_alpha s) (sim_alphaTarget s)
               (sim_alphaDecay s) (sim_running s).

(** [simulation.force("charge", d3.forceManyBody().strength(c))]. *)
Definition setCharge (c : option Q) (s : Simulation) : Simulation :=
  MkSimulation (sim_nodes s) (sim_links s) c (sim_linkDistance s)
               (sim_center s) (sim_alpha s) (sim_alphaTarget s)
               (sim_alphaDecay s) (sim_running s).

(** [simulation.force("link", d3.forceLink(ls).id(...).distance(d))]. *)
Definition setLinkForce (ls : list link) (d : option Q) (s : Simulation)
  : Simulation :=
  MkSimulation (sim_nodes s) ls (sim_charge s) d
               (sim_center s) (sim_alpha s) (sim_alphaTarget s)
               (sim_alphaDecay s) (sim_running s).

(** [simulation.alpha(a)]. *)
Definition alpha (a : Q) (s : Simulation) : Simulation :=
  MkSimulation (sim_nodes s) (sim_links s) (sim_charge s)
               (sim_linkDistance s) (sim_center s) a (sim_alphaTarget s)
               (sim_alphaDecay s) (sim_running s).

(** [simulation.alphaTarget(a)]. *)
Definition alphaTarget (a : Q) (s : Simulation) : Simulation :=
  MkSimulation (sim_nodes s) (sim_links s) (sim_charge s)
               (sim_linkDistance s) (sim_center s) (sim_alpha s) a
               (sim_alphaDecay s) (sim_running s).

Definition setRunning (b : bool) (s : Simulation) : Simulation :=
  MkSimulation (sim_nodes s) (sim_links s) (sim_charge s)
               (sim_linkDistance s) (sim_center s) (sim_alpha s)
               (sim_alphaTarget s) (sim_alphaDecay s) b.

(** [simulation.restart()] and [simulation.stop()]. *)
Definition restart : Simulation -> Simulation := setRunning true.
Definition stop : Simulation -> Simulation := setRunning false.
End Sim.

(** *** d3 selections over the rendered elements *)

Definition freshNodeElem (r : nat) : nodeElem :=
  NodeElem r false false false None None.

Definition freshLinkElem (l : link) : linkElem :=
  LinkElem l false false None None None None.

Definition bindNode (r : nat) (e : nodeElem) : nodeElem :=
  NodeElem r (ne_highlighted e) (ne_neighbor e) (ne_hidden e)
           (ne_cx e) (ne_cy e).

Definition bindLink (l : link) (e : linkElem) : linkElem :=
  LinkElem l (le_highlighted e) (le_hidden e)
           (le_x1 e) (le_y1 e) (le_x2 e) (le_y2 e).

(** [selection.data(ds).join(enter, update, exit => exit.remove())], with
    no key function: the i-th datum goes to the i-th existing element, which
    keeps its classes and attributes; further data get fresh elements and
    further elements are removed. *)
Fixpoint join {D E : Type} (fresh : D -> E) (bind : D -> E -> E)
    (ds : list D) (es : list E) : list E :=
  match ds with
  | [] => []
  | d :: ds' =>
      match es with
      | [] => fresh d :: join fresh bind ds' []
      | e :: es' => bind d e :: join fresh bind ds' es'
      end
  end.

(** [selection.data(ds).enter().append(...)]: as [join], except that the
    elements beyond the data are not removed.  On the empty selection that
    [init()] starts from, this makes one element per datum. *)
Definition enterAppend {D E : Type} (fresh : D -> E) (bind : D -> E -> E)
    (ds : list D) (es : list E) : list E :=
  join fresh bind ds es ++ drop (length ds) es.

Definition setNodeClasses (hl nb hid : bool) (e : nodeElem) : nodeElem :=
  NodeElem (ne_datum e) hl nb hid (ne_cx e) (ne_cy e).

Definition setLinkClasses (hl hid : bool) (e : linkElem) : linkElem :=
  LinkElem (le_datum e) hl hid (le_x1 e) (le_y1 e) (le_x2 e) (le_y2 e).

(** [selection.attr(name, f)] removes the attribute when [f] yields [null]
    or [undefined]. *)
Definition attrValue (v : jsval) : jsval :=
  match v with
  | Some JNull => None
  | _ => v
  end.

(** ** The methods of [NetworkVisualization] *)

(** How a method ends: by returning, or with an uncaught [TypeError]. *)
Inductive completion : Type :=
  | Returned
  | Threw.

(** [createLinks()] and [createNodes()]. *)
Definition createLinks (st : State) : State :=
  set_linkGroup (enterAppend freshLinkElem bindLink (links (filteredData st))
                             (linkGroup st)) st.

Definition createNodes (st : State) : State :=
  set_nodeGroup (enterAppend freshNodeElem bindNode (nodes (filteredData st))
                             (nodeGroup st)) st.

(** [startSimulation()]. *)
Definition startSimulation (st : State) : State :=
  set_simulation
    (MkSimulation (nodes (filteredData st)) (links (filteredData st))
                  (Some (chargeStrength (config st)))
                  (Some (linkDistance (config st)))
                  (width (config st) / 2, height (config st) / 2)%Q
                  (simulationAlpha (config st)) 0
                  (simulationDecay (config st)) true)
    st.

(** [init()] on successfully loaded data: [loadData], [createVisualization].
    [setupSVG], [setupEventListeners], [updateStatistics] and [showLoading]
    write nothing that is modelled.  Before [startSimulation] there is no
    simulation ([null]); an idle one with no nodes stands for it. *)
Definition init (cfg : Config) (rnd : nat -> Q) (raw : rawData) : State :=
  let '(h, g) := preprocessData cfg rnd raw in
  let st := MkState cfg h g g None
                    (MkSimulation [] [] None None (0, 0)%Q 0 0 0 false)
                    [] [] false None false ZoomIdentity [] in
  startSimulation (createNodes (createLinks st)).

(** [updatePositions()]. *)
Definition updatePositions (st : State) : State :=
  let ls := map (fun e =>
                   LinkElem (le_datum e) (le_highlighted e) (le_hidden e)
                     (attrValue (n_x (nodeAt st (l_source (le_datum e)))))
                     (attrValue (n_y (nodeAt st (l_source (le_datum e)))))
                     (attrValue (n_x (nodeAt st (l_target (le_datum e)))))
                     (attrValue (n_y (nodeAt st (l_target (le_datum e))))))
                (linkGroup st) in
  let ns := map (fun e =>
                   NodeElem (ne_datum e) (ne_highlighted e) (ne_neighbor e)
                     (ne_hidden e)
                     (attrValue (n_x (nodeAt st (ne_datum e))))
                     (attrValue (n_y (nodeAt st (ne_datum e)))))
                (nodeGroup st) in
  set_nodeGroup ns (set_linkGroup ls st).

(** The drag handlers of [drag()]; [active] is [event.active], truthy when
    another gesture is in progress. *)
Definition dragStart (active : bool) (r : nat) (st : State) : State :=
  let st1 := if active then st
             else set_simulation
                    (Sim.restart (Sim.alphaTarget (3 # 10) (simulation st))) st in
  set_heap (alter (fun n => setPosition (n_x n) (n_y n) (n_x n) (n_y n) n)
                  r (heap st1)) st1.

Definition dragMove (ex ey : Q) (r : nat) (st : State) : State :=
  set_heap (alter (fun n => setPosition (n_x n) (n_y n)
                                        (Some (JNum ex)) (Some (JNum ey)) n)
                  r (heap st)) st.

Definition dragEnd (active : bool) (r : nat) (st : State) : State :=
  let st1 := if active then st
             else set_simulation (Sim.alphaTarget 0 (simulation st)) st in
  set_heap (alter (fun n => setPosition (n_x n) (n_y n)
                                        (Some JNull) (Some JNull) n)
                  r (heap st1)) st1.

(** [showNodeDetail(node)] and [closeDetailPanel()]. *)
Definition showNodeDetail (r : nat) (st : State) : State :=
  set_detail (Some r) true st.

Definition closeDetailPanel (st : State) : State :=
  set_detail (detailNode st) false st.

(** [clearHighlight()]. *)
Definition clearHighlight (st : State) : State :=
  let st1 := set_nodeGroup
               (map (fun e => setNodeClasses false false (ne_hidden e) e)
                    (nodeGroup st)) st in
  let st2 := set_linkGroup
               (map (fun e => setLinkClasses false (le_hidden e) e)
                    (linkGroup st1)) st1 in
  set_currentHighlighted None st2.

(** [highlightNode(node)]. *)
Definition highlightNode (r : nat) (st : State) : State :=
  let st0 := clearHighlight st in
  let n := nodeAt st0 r in
  let st1 := set_nodeGroup
               (map (fun e =>
                       if decide (n_id (nodeAt st0 (ne_datum e)) = n_id n)
                       then setNodeClasses true (ne_neighbor e) (ne_hidden e) e
                       else e)
                    (nodeGroup st0)) st0 in
  let st2 := set_nodeGroup
               (map (fun e =>
                       if decide (ne_datum e ∈ n_neighbors n)
                       then setNodeClasses (ne_highlighted e) true (ne_hidden e) e
                       else e)
                    (nodeGroup st1)) st1 in
  let st3 := set_linkGroup
               (map (fun e =>
                       if decide (n_id (nodeAt st2 (l_source (le_datum e))) = n_id n
                                  ∨ n_id (nodeAt st2 (l_target (le_datum e))) = n_id n)
                       then setLinkClasses true (le_hidden e) e
                       else e)
                    (linkGroup st2)) st2 in
  showNodeDetail r (set_currentHighlighted (Some r) st3).

(** [centerOnNode(node)]. *)
Definition centerOnNode (r : nat) (st : State) : State :=
  set_zoom (ZoomCentered (n_x (nodeAt st r)) (n_y (nodeAt st r))) st.

(** [this.filteredData.nodes.find(d => d.id.toString() === searchId)]. *)
Definition findVisible (searchId : string) (st : State) : option nat :=
  snd <$> list_find (fun r => toString (n_id (nodeAt st r)) = searchId)
                    (nodes (filteredData st)).

(** [searchNode()]; [searchId] is the text of the search box. *)
Definition searchNode (searchId : string) (st : State) : State :=
  if decide (searchId = EmptyString) then st
  else match findVisible searchId st with
       | Some r => centerOnNode r (highlightNode r st)
       | None => raiseAlert (AlertNotFound searchId) st
       end.

(** [clearSearch()]. *)
Definition clearSearch (st : State) : State := clearHighlight st.

(** [updateVisualization()]: rebind the elements, then hand the visible
    arrays to the simulation and restart it at alpha 1. *)
Definition updateVisualization (st : State) : State :=
  let st1 := set_linkGroup
               (join freshLinkElem bindLink (links (filteredData st))
                     (linkGroup st)) st in
  let st2 := set_nodeGroup
               (join freshNodeElem bindNode (nodes (filteredData st1))
                     (nodeGroup st1)) st1 in
  set_simulation
    (Sim.restart
       (Sim.alpha 1
          (Sim.setLinks (links (filteredData st2))
             (Sim.setNodes (nodes (filteredData st2)) (simulation st2)))))
    st2.

(** [filterByDegree(maxDegree)]; the slider hands over a numeric string,
    which [<=] compares as a number. *)
Definition withinDegree (st : State) (maxDegree : Z) (r : nat) : Prop :=
  (Z.of_nat (n_degree (nodeAt st r)) <= maxDegree)%Z.

#[global] Instance withinDegree_dec st d r : Decision (withinDegree st d r).
Proof. unfold withinDegree. apply _. Defined.

Definition filterByDegree (maxDegree : Z) (st : State) : State :=
  updateVisualization
    (set_filteredData
       (MkGraph
          (filter (withinDegree st maxDegree) (nodes (data st)))
          (filter (fun l => withinDegree st maxDegree (l_source l)
                            ∧ withinDegree st maxDegree (l_target l))
                  (links (data st))))
       st).

(** [showAllNodes()]. *)
Definition showAllNodes (st : State) : State :=
  let st1 := set_nodeGroup
               (map (fun e => setNodeClasses (ne_highlighted e) (ne_neighbor e)
                                             false e)
                    (nodeGroup st)) st in
  set_linkGroup
    (map (fun e => setLinkClasses (le_highlighted e) false e) (linkGroup st1))
    st1.

(** [showNeighborsOnly()]. *)
Definition showNeighborsOnly (st : State) : State :=
  match currentHighlighted st with
  | None => st
  | Some h =>
      let st1 := set_nodeGroup
                   (map (fun e =>
                           setNodeClasses (ne_highlighted e) (ne_neighbor e)
                             (bool_decide
                                (n_id (nodeAt st (ne_datum e)) ≠ n_id (nodeAt st h)
                                 ∧ ne_datum e ∉ n_neighbors (nodeAt st h)))
                             e)
                        (nodeGroup st)) st in
      set_linkGroup
        (map (fun e =>
                setLinkClasses (le_highlighted e)
                  (bool_decide
                     (n_id (nodeAt st1 (l_source (le_datum e))) ≠ n_id (nodeAt st1 h)
                      ∧ n_id (nodeAt st1 (l_target (le_datum e))) ≠ n_id (nodeAt st1 h)))
                  e)
             (linkGroup st1)) st1
  end.

(** [showHighlightedOnly()].  Inside the arrow functions [this] is the
    [NetworkVisualization], not the element, so [d3.select(this).classed(..)]
    reads the class list of an object that has none and throws a [TypeError]
    at the first element, before any class is written. *)
Definition showHighlightedOnly (st : State) : completion * State :=
  match nodeGroup st, linkGroup st with
  | [], [] => (Returned, st)
  | _, _ => (Threw, st)
  end.

(** [setDisplayMode(mode)]. *)
Definition setDisplayMode (mode : string) (st : State) : completion * State :=
  if decide (mode = "all"%string) then (Returned, showAllNodes st)
  else if decide (mode = "neighbors"%string) then (Returned, showNeighborsOnly st)
  else if decide (mode = "highlighted"%string) then showHighlightedOnly st
  else (Returned, st).

(** [restartSimulation()] and [togglePause()]. *)
Definition restartSimulation (st : State) : State :=
  set_simulation (Sim.restart (Sim.alpha 1 (simulation st))) st.

Definition togglePause (st : State) : State :=
  let st1 := set_isPaused (negb (isPaused st)) st in
  set_simulation
    ((if isPaused st1 then Sim.stop else Sim.restart) (simulation st1)) st1.

(** [updateForceParameters()]; the arguments are what [parseInt] makes of
    the two sliders' values. *)
Definition updateForceParameters (charge distance : option Z) (st : State)
  : State :=
  let s1 := Sim.setCharge (inject_Z <$> charge) (simulation st) in
  let s2 := Sim.setLinkForce (links (filteredData st)) (inject_Z <$> distance) s1 in
  set_simulation (Sim.restart (Sim.alpha (3 # 10) s2)) st.

(** ** Layout export and import *)

(** An entry of [layout.nodes] and of [layout.links]. *)
Record layoutNode : Type := LayoutNode {
  ln_id : ident;
  ln_x : jsval;
  ln_y : jsval;
  ln_fx : jsval;
  ln_fy : jsval
}.

Record layoutLink : Type := LayoutLink {
  ll_source : ident;
  ll_target : ident
}.

Record Layout : Type := MkLayout {
  lay_nodes : list layoutNode;
  lay_links : list layoutLink;
  lay_exportTime : string;
  lay_nodeCount : nat;
  lay_linkCount : nat
}.

(** The [layout] object built by [exportLayout()], which is then serialised
    and offered for download; [exportTime] is [new Date().toISOString()]. *)
Definition exportLayout (exportTime : string) (st : State) : Layout :=
  MkLayout
    (map (fun r => LayoutNode (n_id (nodeAt st r)) (n_x (nodeAt st r))
                              (n_y (nodeAt st r)) (n_fx (nodeAt st r))
                              (n_fy (nodeAt st r)))
         (nodes (filteredData st)))
    (map (fun l => LayoutLink (n_id (nodeAt st (l_source l)))
                              (n_id (nodeAt st (l_target l))))
         (links (filteredData st)))
    exportTime
    (length (nodes (filteredData st)))
    (length (links (filteredData st))).

(** The last value stored under a key of a parsed object. *)
Fixpoint lookupField (k : string) (fs : list (string * json)) : jsval :=
  match fs with
  | [] => None
  | (k', v) :: fs' =>
      match lookupField k fs' with
      | Some w => Some w
      | None => if decide (k' = k) then Some v else None
      end
  end.

(** Reading one of the properties [nodes], [links], [id], [x], [y], [fx],
    [fy] of a parsed value: a [TypeError] ([None]) on [null], the field of
    an object, [undefined] on anything else. *)
Definition getProp (v : json) (k : string) : option jsval :=
  match v with
  | JNull => None
  | JObj fs => Some (lookupField k fs)
  | _ => Some None
  end.

Definition truthy (v : jsval) : bool :=
  match v with
  | None | Some JNull => false
  | Some (JBool b) => b
  | Some (JNum q) => negb (Qeq_bool q 0)
  | Some (JStr s) => negb (bool_decide (s = EmptyString))
  | Some (JArr _) | Some (JObj _) => true
  end.

(** [d.id === v]. *)
Definition idEquals (i : ident) (v : jsval) : bool :=
  match i, v with
  | IdNum z, Some (JNum q) => Qeq_bool (inject_Z z) q
  | IdStr s, Some (JStr s') => bool_decide (s = s')
  | _, _ => false
  end.

(** The callback of [layout.nodes.forEach], lines 585-593. *)
Definition applyEntry (layoutNode : json) (st : State) : completion * State :=
  match getProp layoutNode "id" with
  | None => (Threw, st)
  | Some idv =>
      match list_find (fun r => idEquals (n_id (nodeAt st r)) idv = true)
                      (nodes (filteredData st)) with
      | Some (_, r) =>
          let field k := default None (getProp layoutNode k) in
          (Returned,
           set_heap (alter (setPosition (field "x"%string) (field "y"%string)
                                        (field "fx"%string) (field "fy"%string))
                           r (heap st)) st)
      | None => (Returned, st)
      end
  end.

(** [forEach]: the callbacks run in order until one throws. *)
Fixpoint forEach {A : Type} (f : A -> State -> completion * State)
    (l : list A) (st : State) : completion * State :=
  match l with
  | [] => (Returned, st)
  | a :: l' =>
      match f a st with
      | (Returned, st') => forEach f l' st'
      | (Threw, st') => (Threw, st')
      end
  end.

(** [applyLayout(layout)]. *)
Definition applyLayout (layout : json) (st : State) : completion * State :=
  match getProp layout "nodes" with
  | None => (Threw, st)
  | Some ns =>
      if truthy ns then
        match getProp layout "links" with
        | None => (Threw, st)
        | Some ls =>
            if truthy ls then
              match ns with
              | Some (JArr entries) =>
                  match forEach applyEntry entries st with
                  | (Returned, st') =>
                      let st'' := updatePositions st' in
                      (Returned,
                       set_simulation
                         (Sim.restart (Sim.alpha (1 # 10) (simulation st'')))
                         st'')
                  | (Threw, st') => (Threw, st')
                  end
              | _ => (Threw, st)
              end
            else (Returned, st)
        end
      else (Returned, st)
  end.

(** What the file input delivers. *)
Inductive layoutFile : Type :=
  | NoFile
  | FileText (parsed : option json).

(** [importLayout(event)], with the [onload] handler run: [parsed] is the
    result of [JSON.parse], [None] when it throws. *)
Definition importLayout (file : layoutFile) (st : State) : State :=
  match file with
  | NoFile => st
  | FileText None => raiseAlert AlertLayoutFormat st
  | FileText (Some layout) =>
      match applyLayout layout st with
      | (Returned, st') => st'
      | (Threw, st') => raiseAlert AlertLayoutFormat st'
      end
  end.

(** ** A running example: the five-node graph *)

Definition ex_raw : rawData :=
  {| raw_nodes := map (fun z => RawNode (IdNum z) None None) [1;2;3;4;5]%Z;
     raw_links := map (fun p => RawLink (IdNum p.1) (IdNum p.2))
                      [(1,2);(1,3);(1,4);(2,3)]%Z |}.

Definition ex_cfg (n : nat) : Config :=
  MkConfig 800 600 (-30) 80 4 n 2 6 (3#10) (2#100).

Definition ex_rnd : nat -> Q := fun _ => 1 # 2.

Definition ex_st : State := init (ex_cfg 5) ex_rnd ex_raw.

Definition ex_bad_layout : json :=
  JObj [("nodes"%string,
         JArr [JObj [("id"%string, JNum 1); ("x"%string, JNum 10);
                     ("y"%string, JNum 20)];
               JNull]);
        ("links"%string, JArr [])].

(** ** Vocabulary of the statements *)

Section SortSpec.
Context {A : Type} (key : A -> nat).

(** Ordered by key, largest first. *)
Definition Descending (l : list A) : Prop :=
  StronglySorted (fun a b => key b <= key a) l.

(** Elements of one key appear in the same order in both lists. *)
Definition SameOrderPerKey (l1 l2 : list A) : Prop :=
  forall d, filter (fun a => key a = d) l1 = filter (fun a => key a = d) l2.

(** [out] is [inp] sorted by key, descending, ties in input order. *)
Definition StableDescSort (inp out : list A) : Prop :=
  Permutation inp out /\ Descending out /\ SameOrderPerKey out inp.
End SortSpec.

(** *** Truncation *)

(** How many link endpoints carry the id [i]. *)
Definition endpointCount (i : ident) (ls : list rawLink) : nat :=
  length (filter (fun l => raw_source l = i) ls)
  + length (filter (fun l => raw_target l = i) ls).

(** The input nodes, each with its pre-truncation degree: the number of
    endpoints of input links that carry its id. *)
Definition rankedInput (raw : rawData) : list rawNode :=
  map (fun n => RawNode (raw_id n) (raw_group n)
                        (Some (endpointCount (raw_id n) (raw_links raw))))
      (raw_nodes raw).

(** The arrays after truncation and the node objects as created. *)
Definition keptNodes (cfg : Config) (raw : rawData) : list rawNode :=
  (truncate (maxNodes cfg) raw).1.

Definition keptLinks (cfg : Config) (raw : rawData) : list rawLink :=
  (truncate (maxNodes cfg) raw).2.

Definition freshNodes (cfg : Config) (rnd : nat -> Q) (raw : rawData)
  : list node := (processNodes cfg rnd (keptNodes cfg raw) 0).1.

Definition builtHeap (cfg : Config) (rnd : nat -> Q) (raw : rawData)
  : list node := (preprocessData cfg rnd raw).1.

Definition builtGraph (cfg : Config) (rnd : nat -> Q) (raw : rawData)
  : Graph := (preprocessData cfg rnd raw).2.

(** *** Degrees and neighbour sets *)

(** Link endpoints that are the node [r]. *)
Definition degreeIn (r : nat) (ls : list link) : nat :=
  length (filter (fun l => l_source l = r) ls)
  + length (filter (fun l => l_target l = r) ls).

(** The other endpoints of the links at [r], one entry per endpoint. *)
Definition neighborsIn (r : nat) (ls : list link) : list nat :=
  flat_map (fun l => (if decide (l_source l = r) then [l_target l] else [])
                     ++ (if decide (l_target l = r) then [l_source l] else []))
           ls.

(** The node object [n0], stored at [r], once the links [ls] are processed. *)
Definition linked (r : nat) (ls : list link) (n0 : node) : node :=
  Node (n_id n0) (n_group n0) (n_degree n0 + degreeIn r ls)
       (n_neighbors n0 ∪ list_to_set (neighborsIn r ls))
       (n_x n0) (n_y n0) (n_fx n0) (n_fy n0) (n_originalData n0) (n_radius n0).

(** The link objects that [links.map(...).filter(Boolean)] keeps. *)
Definition resolve (byId : gmap ident nat) (l : rawLink) : option link :=
  match byId !! raw_source l, byId !! raw_target l with
  | Some s, Some t => Some (Link s t l)
  | _, _ => None
  end.

Definition resolved (byId : gmap ident nat) (ls : list rawLink) : list link :=
  omap (resolve byId) ls.

(** The link touches the node object [r]. *)
Definition incident (r : nat) (l : link) : Prop :=
  l_source l = r \/ l_target l = r.

#[global] Instance incident_dec r l : Decision (incident r l).
Proof. unfold incident. apply _. Defined.

(** Two input links join the same two ids, in either direction. *)
Definition joinSame (a b : rawLink) : Prop :=
  (raw_source a = raw_source b /\ raw_target a = raw_target b)
  \/ (raw_source a = raw_target b /\ raw_target a = raw_source b).

(** No link from an id to itself, and no two links between the same ids. *)
Definition SimpleLinks (ls : list rawLink) : Prop :=
  Forall (fun l => raw_source l <> raw_target l) ls
  /\ ForallOrdPairs (fun a b => ~ joinSame a b) ls.

(** *** Visible subgraphs *)

(** Every link of the graph joins two nodes of the graph. *)
Definition GraphClosed (g : Graph) : Prop :=
  Forall (fun l => l_source l ∈ nodes g /\ l_target l ∈ nodes g) (links g).

(** The data of the rendered elements that do not carry the hidden class. *)
Definition visibleNodes (st : State) : list nat :=
  map ne_datum (filter (fun e => ne_hidden e = false) (nodeGroup st)).

Definition visibleLinks (st : State) : list link :=
  map le_datum (filter (fun e => le_hidden e = false) (linkGroup st)).

(** *** The handlers as a transition system *)

(** What the user interface can make of a state: one transition per event
    handler installed by [setupEventListeners], [createNodes] and the detail
    panel. *)
Inductive step : State -> State -> Prop :=
  | step_searchNode sid st : step st (searchNode sid st)
  | step_clearSearch st : step st (clearSearch st)
  | step_highlightNode r st : step st (highlightNode r st)
  | step_showNodeDetail r st : step st (showNodeDetail r st)
  | step_closeDetailPanel st : step st (closeDetailPanel st)
  | step_filterByDegree d st : step st (filterByDegree d st)
  | step_setDisplayMode mode st : step st (setDisplayMode mode st).2
  | step_restartSimulation st : step st (restartSimulation st)
  | step_togglePause st : step st (togglePause st)
  | step_updateForceParameters c d st :
      step st (updateForceParameters c d st)
  | step_importLayout file st : step st (importLayout file st)
  | step_dragStart active r st : step st (dragStart active r st)
  | step_dragMove ex ey r st : step st (dragMove ex ey r st)
  | step_dragEnd active r st : step st (dragEnd active r st).

(** The states the handlers can reach from a freshly loaded graph. *)
Definition reachable (cfg : Config) (rnd : nat -> Q) (raw : rawData)
    (st : State) : Prop :=
  rtc step (init cfg rnd raw) st.

(** The fields of a node object that are written at build time only. *)
Definition builtFields (n : node)
  : ident * Z * nat * gset nat * rawNode * Q :=
  (n_id n, n_group n, n_degree n, n_neighbors n, n_originalData n, n_radius n).

(** *** Properties in the specification's words *)

(** The degree property in the specification's words: the degree is the
    number of returned links incident to the node, and the neighbour set has
    that size whenever no (source, target) pair occurs twice in the input. *)
Definition DegreeClaim (cfg : Config) (rnd : nat -> Q) (raw : rawData) : Prop :=
  forall r n,
    builtHeap cfg rnd raw !! r = Some n ->
    n_degree n
    = length (filter (incident r) (links (builtGraph cfg rnd raw)))
    /\ (NoDup (raw_links raw) -> size (n_neighbors n) = n_degree n).

(** Inputs on which the specification's wording fails: one node with a link
    to itself, and two nodes joined by a link in each direction. *)
Definition loop_raw : rawData :=
  {| raw_nodes := [RawNode (IdNum 1) None None];
     raw_links := [RawLink (IdNum 1) (IdNum 1)] |}.

Definition twoway_raw : rawData :=
  {| raw_nodes := [RawNode (IdNum 1) None None; RawNode (IdNum 2) None None];
     raw_links := [RawLink (IdNum 1) (IdNum 2); RawLink (IdNum 2) (IdNum 1)] |}.

(** The focus property in the specification's words: a non-empty search
    text is reported as not found exactly when no node of the full graph has
    that id. *)
Definition SearchClaim (st : State) : Prop :=
  forall sid,
    sid <> EmptyString ->
    (alerts (searchNode sid st) = alerts st ++ [AlertNotFound sid]
     <-> ~ exists r, r ∈ nodes (data st)
                     /\ toString (n_id (nodeAt st r)) = sid).

(** The restart property in the specification's words, for a state reached
    by a filter change: the simulation runs on the visible nodes and links,
    with alpha reset to 1. *)
Definition RestartedOnVisible (st' : State) : Prop :=
  sim_nodes (simulation st') = visibleNodes st'
  /\ sim_links (simulation st') = visibleLinks st'
  /\ (sim_alpha (simulation st') == 1)%Q.

(** The neighbours-only property in the specification's words: the visible
    nodes are the highlighted node and its neighbour set, the visible links
    are the links of the graph with an endpoint at the highlighted node. *)
Definition NeighborsOnlyClaim (st : State) : Prop :=
  forall h,
    currentHighlighted st = Some h ->
    let st' := showNeighborsOnly st in
    (forall r, r ∈ visibleNodes st' <->
               r = h \/ r ∈ n_neighbors (nodeAt st h))
    /\ (forall l, l ∈ visibleLinks st' <->
                  l ∈ links (data st) /\ (l_source l = h \/ l_target l = h)).

(** *** Further vocabulary *)

(** The rendered elements, the simulation and the visible arrays agree, and
    the visible arrays are parts of the full graph, in its order. *)
Definition Coherent (st : State) : Prop :=
  map ne_datum (nodeGroup st) = nodes (filteredData st)
  /\ map le_datum (linkGroup st) = links (filteredData st)
  /\ sim_nodes (simulation st) = nodes (filteredData st)
  /\ sim_links (simulation st) = links (filteredData st)
  /\ nodes (filteredData st) `sublist_of` nodes (data st)
  /\ links (filteredData st) `sublist_of` links (data st).

(** [JSON.parse(JSON.stringify(layout, null, 2))]: what a file written by
    [exportLayout] reads back as.  A property whose value is [undefined] is
    left out by [JSON.stringify]; [null], a finite number, a string and any
    value that was itself read from a file are written and read back as they
    are. *)
Definition idJson (i : ident) : json :=
  match i with
  | IdNum z => JNum (inject_Z z)
  | IdStr s => JStr s
  end.

Definition fieldJson (k : string) (v : jsval) : list (string * json) :=
  match v with
  | Some j => [(k, j)]
  | None => []
  end.

Definition layoutNodeJson (e : layoutNode) : json :=
  JObj ([("id"%string, idJson (ln_id e))]
        ++ fieldJson "x" (ln_x e) ++ fieldJson "y" (ln_y e)
        ++ fieldJson "fx" (ln_fx e) ++ fieldJson "fy" (ln_fy e)).

Definition layoutLinkJson (e : layoutLink) : json :=
  JObj [("source"%string, idJson (ll_source e));
        ("target"%string, idJson (ll_target e))].

Definition layoutJson (lay : Layout) : json :=
  JObj [("nodes"%string, JArr (map layoutNodeJson (lay_nodes lay)));
        ("links"%string, JArr (map layoutLinkJson (lay_links lay)));
        ("metadata"%string,
         JObj [("exportTime"%string, JStr (lay_exportTime lay));
               ("nodeCount"%string,
                JNum (inject_Z (Z.of_nat (lay_nodeCount lay))));
               ("linkCount"%string,
                JNum (inject_Z (Z.of_nat (lay_linkCount lay))))])].

(** The position and pin of a node object. *)
Definition placement (n : node) : jsval * jsval * jsval * jsval :=
  (n_x n, n_y n, n_fx n, n_fy n).

(** An input in which two nodes carry the id 7. *)
Definition dup_raw : rawData :=
  {| raw_nodes := [RawNode (IdNum 7) None None; RawNode (IdNum 8) None None;
                   RawNode (IdNum 7) None None];
     raw_links := [RawLink (IdNum 7) (IdNum 8)] |}.

(** A node object as [preprocessData] creates it from well-behaved draws:
    placed within the layout bounds, unpinned, with its non-zero input group
    or else a group between 0 and 9. *)
Definition WellPlaced (cfg : Config) (p : node) : Prop :=
  (exists x y, n_x p = Some (JNum x) /\ n_y p = Some (JNum y)
               /\ (0 <= x <= width cfg)%Q /\ (0 <= y <= height cfg)%Q)
  /\ n_fx p = None /\ n_fy p = None
  /\ match raw_group (n_originalData p) with
     | Some g => if decide (g = 0%Z) then (0 <= n_group p <= 9)%Z
                 else n_group p = g
     | None => (0 <= n_group p <= 9)%Z
     end.

(** [st'] shows the same data as [st]: same graph and visible arrays, same
    data under the rendered elements and in the simulation. *)
Definition SameRendering (st st' : State) : Prop :=
  data st' = data st
  /\ filteredData st' = filteredData st
  /\ map ne_datum (nodeGroup st') = map ne_datum (nodeGroup st)
  /\ map le_datum (linkGroup st') = map le_datum (linkGroup st)
  /\ sim_nodes (simulation st') = sim_nodes (simulation st)
  /\ sim_links (simulation st') = sim_links (simulation st).

(** Every rendered element is drawn where its datum is: the position
    attributes are those [updatePositions] writes from the node objects. *)
Definition Drawn (st : State) : Prop :=
  Forall (fun e =>
            ne_cx e = attrValue (n_x (nodeAt st (ne_datum e)))
            /\ ne_cy e = attrValue (n_y (nodeAt st (ne_datum e))))
         (nodeGroup st)
  /\ Forall (fun e =>
               le_x1 e = attrValue (n_x (nodeAt st (l_source (le_datum e))))
               /\ le_y1 e = attrValue (n_y (nodeAt st (l_source (le_datum e))))
               /\ le_x2 e = attrValue (n_x (nodeAt st (l_target (le_datum e))))
               /\ le_y2 e = attrValue (n_y (nodeAt st (l_target (le_datum e)))))
            (linkGroup st).

(** The entry that [exportLayout] writes for the node object [r] of [st],
    as it is read back. *)
Definition exportedEntry (st : State) (r : nat) : json :=
  layoutNodeJson (LayoutNode (n_id (nodeAt st r)) (n_x (nodeAt st r))
                             (n_y (nodeAt st r)) (n_fx (nodeAt st r))
                             (n_fy (nodeAt st r))).

(** [st'] hides the same elements as [st]. *)
Definition SameHiding (st st' : State) : Prop :=
  map (fun e => (ne_datum e, ne_hidden e)) (nodeGroup st')
  = map (fun e => (ne_datum e, ne_hidden e)) (nodeGroup st)
  /\ map (fun e => (le_datum e, le_hidden e)) (linkGroup st')
     = map (fun e => (le_datum e, le_hidden e)) (linkGroup st).

(** * Verification *)

(** ** The stable, descending sort *)

Section SortFacts.
Context {A : Type} (key : A -> nat).

Lemma insertDesc_perm a l : Permutation (a :: l) (insertDesc key a l).
Proof.
  induction l as [|b l IH]; simpl; [done|].
  destruct (key b <=? key a); [done|].
  rewrite <- IH. apply perm_swap.
Qed.

Lemma sortDesc_perm l : Permutation l (sortDesc key l).
Proof.
  induction l as [|a l IH]; simpl; [done|].
  rewrite <- insertDesc_perm. by constructor.
Qed.

Lemma insertDesc_descending a l :
  Descending key l -> Descending key (insertDesc key a l).
Proof.
  induction 1 as [|b l Hl IH Hb]; simpl.
  - repeat constructor.
  - destruct (Nat.leb_spec (key b) (key a)) as [Hle|Hlt].
    + constructor; [by constructor|].
      constructor; [done|].
      eapply Forall_impl; [exact Hb|]. simpl. intros x Hx. lia.
    + constructor; [done|].
      rewrite <- insertDesc_perm. constructor; [lia|done].
Qed.

Lemma sortDesc_descending l : Descending key (sortDesc key l).
Proof.
  induction l as [|a l IH]; simpl; [constructor|].
  by apply insertDesc_descending.
Qed.

Lemma insertDesc_same_order a l :
  SameOrderPerKey key (insertDesc key a l) (a :: l).
Proof.
  intros d. induction l as [|b l IH]; simpl; [done|].
  destruct (Nat.leb_spec (key b) (key a)) as [Hle|Hlt]; [done|].
  rewrite filter_cons, IH, !filter_cons.
  repeat case_decide; try done; lia.
Qed.

Lemma sortDesc_same_order l : SameOrderPerKey key (sortDesc key l) l.
Proof.
  intros d. induction l as [|a l IH]; simpl; [done|].
  rewrite insertDesc_same_order, !filter_cons, IH. done.
Qed.

Lemma sortDesc_stable l : StableDescSort key l (sortDesc key l).
Proof.
  split; [apply sortDesc_perm|].
  split; [apply sortDesc_descending | apply sortDesc_same_order].
Qed.

Lemma sortDesc_length l : length (sortDesc key l) = length l.
Proof. symmetry. apply Permutation_length, sortDesc_perm. Qed.

(** The head of a descending list has the largest key. *)
Lemma descending_head_max a l b :
  Descending key (a :: l) -> b ∈ a :: l -> key b <= key a.
Proof.
  intros Hs Hb. apply StronglySorted_inv in Hs as [_ Hall].
  apply elem_of_cons in Hb as [->|Hb]; [done|].
  rewrite Forall_forall in Hall. by apply Hall.
Qed.

(** Two stable descending arrangements of the same elements coincide:
    the result of the sort does not depend on the algorithm. *)
Lemma descending_same_order_eq l1 l2 :
  Permutation l1 l2 -> Descending key l1 -> Descending key l2 ->
  SameOrderPerKey key l1 l2 -> l1 = l2.
Proof.
  revert l2. induction l1 as [|a l1 IH]; intros l2 Hp H1 H2 Hf.
  - by apply Permutation_nil in Hp.
  - destruct l2 as [|b l2].
    { symmetry in Hp. by apply Permutation_nil in Hp. }
    assert (key a = key b) as Hk.
    { apply Nat.le_antisymm.
      - apply (descending_head_max b l2 a H2). rewrite <- Hp. by left.
      - apply (descending_head_max a l1 b H1). rewrite Hp. by left. }
    assert (a = b) as ->.
    { specialize (Hf (key a)). rewrite !filter_cons in Hf.
      rewrite decide_True in Hf by done.
      rewrite decide_True in Hf by done. congruence. }
    f_equal. apply IH.
    + by apply Permutation_cons_inv in Hp.
    + by apply StronglySorted_inv in H1 as [? _].
    + by apply StronglySorted_inv in H2 as [? _].
    + intros d. specialize (Hf d). rewrite !filter_cons in Hf.
      case_decide; congruence.
Qed.

Lemma stable_sort_unique inp out :
  StableDescSort key inp out -> out = sortDesc key inp.
Proof.
  intros (Hp & Hd & Hf). apply descending_same_order_eq; [|done| |].
  - rewrite <- Hp. apply sortDesc_perm.
  - apply sortDesc_descending.
  - intros d. rewrite Hf. symmetry. apply sortDesc_same_order.
Qed.
End SortFacts.

(** ** Generic list facts *)

Lemma map_fmap {A B : Type} (f : A -> B) (l : list A) : map f l = f <$> l.
Proof. reflexivity. Qed.

Lemma map_alter_same {A B : Type} (f : A -> B) (g : A -> A) i (l : list A) :
  (forall a, f (g a) = f a) -> map f (alter g i l) = map f l.
Proof.
  intros Hfg. revert i.
  induction l as [|a l IH]; intros [|i]; cbn; rewrite ?Hfg; try done.
  f_equal. apply IH.
Qed.

Lemma map_map_same {A B : Type} (f : A -> B) (g : A -> A) (l : list A) :
  (forall a, f (g a) = f a) -> map f (map g l) = map f l.
Proof.
  intros Hfg. induction l as [|a l IH]; simpl; [done|]. by rewrite Hfg, IH.
Qed.

Lemma lookup_alter_if {A : Type} (g : A -> A) i j (l : list A) :
  alter g i l !! j = (if decide (i = j) then g else id) <$> l !! j.
Proof.
  rewrite list_lookup_alter. case_decide; [by subst|].
  by destruct (l !! j).
Qed.

Lemma lookup_fmap_length {A B : Type} (g : nat -> B -> A)
    (l : list A) (l' : list B) :
  (forall r, l !! r = g r <$> l' !! r) -> length l = length l'.
Proof.
  intros Hl.
  assert (forall r, r < length l <-> r < length l') as Hlt.
  { intros r. by rewrite <- !lookup_lt_is_Some, Hl, fmap_is_Some. }
  destruct (Nat.lt_trichotomy (length l) (length l')) as [H|[H|H]];
    [|done|]; apply Hlt in H; lia.
Qed.

Lemma ForallOrdPairs_filter {A : Type} (R : A -> A -> Prop) (P : A -> Prop)
    `{forall a, Decision (P a)} (l : list A) :
  ForallOrdPairs R l -> ForallOrdPairs R (filter P l).
Proof.
  induction 1 as [|a l Ha Hl IH]; [constructor|].
  rewrite filter_cons. case_decide; [|done].
  constructor; [|done].
  rewrite Forall_forall in Ha |- *.
  intros b [_ Hb]%list_elem_of_filter. by apply Ha.
Qed.

(** ** The degree counters of the ranking step *)

Lemma bump_lookup k m i :
  default 0 (bump k m !! i)
  = default 0 (m !! i) + (if decide (k = i) then 1 else 0).
Proof.
  unfold bump. destruct (decide (k = i)) as [->|Hne].
  - by rewrite lookup_insert_eq.
  - rewrite lookup_insert_ne by done. lia.
Qed.

Lemma nodeDegrees_from m ls i :
  default 0 (foldl (fun m l => bump (raw_target l) (bump (raw_source l) m))
                   m ls !! i)
  = default 0 (m !! i) + endpointCount i ls.
Proof.
  unfold endpointCount. revert m.
  induction ls as [|l ls IH]; intros m; simpl; [lia|].
  rewrite IH, !bump_lookup, !filter_cons.
  repeat case_decide; simpl; lia.
Qed.

Lemma nodeDegrees_count ls i :
  default 0 (nodeDegrees ls !! i) = endpointCount i ls.
Proof. unfold nodeDegrees. by rewrite nodeDegrees_from, lookup_empty. Qed.

(** ** The node objects created by [preprocessData] *)

Section BuildFacts.
Variable cfg : Config.
Variable rnd : nat -> Q.

Lemma processNodes_originalData ns k :
  map n_originalData (processNodes cfg rnd ns k).1 = ns.
Proof.
  revert k. induction ns as [|n ns IH]; intros k; simpl; [done|].
  destruct (newNode cfg rnd n k) as [p k1] eqn:Hp.
  specialize (IH k1). destruct (processNodes cfg rnd ns k1) as [ps k2].
  simpl in *. rewrite IH. f_equal.
  unfold newNode in Hp.
  destruct (raw_group n) as [g|]; [destruct (g =? 0)%Z|];
    by injection Hp as <- _.
Qed.

Lemma processNodes_fresh ns k :
  Forall (fun p => n_id p = raw_id (n_originalData p)
                   /\ n_degree p = 0 /\ n_neighbors p = ∅)
         (processNodes cfg rnd ns k).1.
Proof.
  revert k. induction ns as [|n ns IH]; intros k; simpl; [constructor|].
  destruct (newNode cfg rnd n k) as [p k1] eqn:Hp.
  specialize (IH k1). destruct (processNodes cfg rnd ns k1) as [ps k2].
  simpl in *. constructor; [|done].
  unfold newNode in Hp.
  destruct (raw_group n) as [g|]; [destruct (g =? 0)%Z|];
    by injection Hp as <- _.
Qed.

Lemma processNodes_length ns k :
  length (processNodes cfg rnd ns k).1 = length ns.
Proof.
  rewrite <- (processNodes_originalData ns k) at 2. by rewrite length_map.
Qed.
End BuildFacts.

(** ** The id index *)

Lemma indexFrom_Some h k m i r :
  indexFrom k h m !! i = Some r ->
  m !! i = Some r
  \/ exists n, k <= r /\ h !! (r - k) = Some n /\ n_id n = i.
Proof.
  revert k m. induction h as [|a h IH]; intros k m; simpl; [by left|].
  intros Hi. apply IH in Hi as [H|(n & Hle & Hl & Hid)].
  - destruct (decide (n_id a = i)) as [<-|Hne].
    + rewrite lookup_insert_eq in H. injection H as <-.
      right. exists a. by rewrite Nat.sub_diag.
    + rewrite lookup_insert_ne in H by done. by left.
  - right. exists n. split; [lia|].
    by replace (r - k) with (S (r - S k)) by lia.
Qed.

Lemma indexFrom_is_Some h k m i :
  is_Some (m !! i) \/ i ∈ map n_id h -> is_Some (indexFrom k h m !! i).
Proof.
  revert k m. induction h as [|a h IH]; intros k m; simpl.
  - intros [H|H]; [done | inversion H].
  - intros H. apply IH.
    destruct (decide (n_id a = i)) as [<-|Hne].
    + left. rewrite lookup_insert_eq. eauto.
    + rewrite lookup_insert_ne by done.
      destruct H as [H|H]; [by left|].
      apply elem_of_cons in H as [H|H]; [congruence | by right].
Qed.

Lemma nodeById_Some h i r :
  nodeById h !! i = Some r -> exists n, h !! r = Some n /\ n_id n = i.
Proof.
  intros [H|(n & _ & Hl & Hid)]%indexFrom_Some.
  - by rewrite lookup_empty in H.
  - exists n. by rewrite Nat.sub_0_r in Hl.
Qed.

Lemma nodeById_is_Some h i : i ∈ map n_id h -> is_Some (nodeById h !! i).
Proof. intros H. apply indexFrom_is_Some. by right. Qed.

Lemma nodeById_elem h i : is_Some (nodeById h !! i) <-> i ∈ map n_id h.
Proof.
  split; [|apply nodeById_is_Some].
  intros [r (n & Hl & <-)%nodeById_Some].
  rewrite map_fmap. apply list_elem_of_fmap_2.
  by eapply list_elem_of_lookup_2.
Qed.

(** Two ids that resolve to the same node object are the same id. *)
Lemma nodeById_inj h i j r :
  nodeById h !! i = Some r -> nodeById h !! j = Some r -> i = j.
Proof.
  intros (n & Hn & <-)%nodeById_Some (n' & Hn' & <-)%nodeById_Some.
  congruence.
Qed.

(** ** Degrees and neighbour sets after the link pass *)

Lemma neighborsIn_length r ls : length (neighborsIn r ls) = degreeIn r ls.
Proof.
  unfold neighborsIn, degreeIn. induction ls as [|l ls IH]; simpl; [done|].
  rewrite !length_app, IH, !filter_cons.
  repeat case_decide; simpl; lia.
Qed.

Lemma degreeIn_snoc r ls l :
  degreeIn r (ls ++ [l])
  = degreeIn r ls + (if decide (l_source l = r) then 1 else 0)
    + (if decide (l_target l = r) then 1 else 0).
Proof.
  unfold degreeIn. rewrite !filter_app, !length_app, !filter_cons, !filter_nil.
  repeat case_decide; simpl; lia.
Qed.

Lemma neighborsIn_snoc r ls l :
  neighborsIn r (ls ++ [l])
  = neighborsIn r ls
    ++ (if decide (l_source l = r) then [l_target l] else [])
    ++ (if decide (l_target l = r) then [l_source l] else []).
Proof.
  unfold neighborsIn. rewrite flat_map_app. simpl. by rewrite app_nil_r.
Qed.

Lemma linked_nil r n0 : linked r [] n0 = n0.
Proof.
  destruct n0. unfold linked, degreeIn, neighborsIn. simpl.
  f_equal; [lia | set_solver].
Qed.

Lemma linked_snoc r ls s t l n0 :
  (if decide (t = r) then incDegree else id)
    ((if decide (s = r) then incDegree else id)
       ((if decide (t = r) then addNeighbor s else id)
          ((if decide (s = r) then addNeighbor t else id) (linked r ls n0))))
  = linked r (ls ++ [Link s t l]) n0.
Proof.
  unfold linked. rewrite degreeIn_snoc, neighborsIn_snoc. simpl.
  repeat case_decide; unfold incDegree, addNeighbor, id; simpl;
    (f_equal; [lia|]); rewrite ?list_to_set_app_L; simpl; set_solver.
Qed.

Lemma processLink_step byId (h0 : list node) (acc : list node * list link) l :
  (forall r, acc.1 !! r = linked r acc.2 <$> h0 !! r) ->
  forall r, (processLink byId acc l).1 !! r
            = linked r (processLink byId acc l).2 <$> h0 !! r.
Proof.
  intros Hacc r. unfold processLink.
  destruct (byId !! raw_source l) as [s|]; [|done].
  destruct (byId !! raw_target l) as [t|]; [|done].
  simpl. rewrite !lookup_alter_if, Hacc.
  destruct (h0 !! r) as [n0|]; simpl; [|done].
  f_equal. apply linked_snoc.
Qed.

Lemma processLink_links byId acc l :
  (processLink byId acc l).2
  = acc.2 ++ match resolve byId l with Some x => [x] | None => [] end.
Proof.
  unfold processLink, resolve.
  destruct (byId !! raw_source l); [|by rewrite app_nil_r].
  destruct (byId !! raw_target l); [done | by rewrite app_nil_r].
Qed.

Lemma foldl_processLink byId (h0 : list node) ls
    (acc : list node * list link) :
  (forall r, acc.1 !! r = linked r acc.2 <$> h0 !! r) ->
  let res := foldl (processLink byId) acc ls in
  (forall r, res.1 !! r = linked r res.2 <$> h0 !! r)
  /\ res.2 = acc.2 ++ resolved byId ls.
Proof.
  revert acc. induction ls as [|l ls IH]; intros acc Hacc; simpl.
  - split; [done | by rewrite app_nil_r].
  - destruct (IH (processLink byId acc l)) as [H1 H2].
    { by apply processLink_step. }
    split; [done|]. rewrite H2, processLink_links.
    unfold resolved. simpl. rewrite <- app_assoc.
    by destruct (resolve byId l).
Qed.

(** The heap and the link array after the whole link pass. *)
Lemma processLinks_spec (h0 : list node) ls :
  (forall r, (processLinks h0 ls).1 !! r
             = linked r (resolved (nodeById h0) ls) <$> h0 !! r)
  /\ (processLinks h0 ls).2 = resolved (nodeById h0) ls.
Proof.
  destruct (foldl_processLink (nodeById h0) h0 ls (h0, [])) as [H1 H2].
  { intros r. simpl. destruct (h0 !! r); simpl; by rewrite ?linked_nil. }
  simpl in H2. unfold processLinks. split; [|done].
  intros r. by rewrite H1, H2.
Qed.

Lemma resolved_originalData byId ls :
  map l_originalData (resolved byId ls)
  = filter (fun l => is_Some (byId !! raw_source l)
                     /\ is_Some (byId !! raw_target l)) ls.
Proof.
  unfold resolved. induction ls as [|l ls IH]; simpl; [done|].
  rewrite filter_cons. unfold resolve at 1. case_decide as Hd.
  - destruct Hd as [[s Hs] [t Ht]]. rewrite Hs, Ht. simpl.
    f_equal. apply IH.
  - destruct (byId !! raw_source l) as [s|] eqn:Hs;
      [destruct (byId !! raw_target l) as [t|] eqn:Ht|];
      simpl; try apply IH.
    exfalso. apply Hd. eauto.
Qed.

Lemma resolved_elem byId ls l :
  l ∈ resolved byId ls ->
  byId !! raw_source (l_originalData l) = Some (l_source l)
  /\ byId !! raw_target (l_originalData l) = Some (l_target l)
  /\ l_originalData l ∈ ls.
Proof.
  unfold resolved. intros (l0 & Hl0 & Hr)%list_elem_of_omap.
  unfold resolve in Hr.
  destruct (byId !! raw_source l0) as [s|] eqn:Hs; [|done].
  destruct (byId !! raw_target l0) as [t|] eqn:Ht; [|done].
  injection Hr as <-. by simpl.
Qed.

(** ** What [preprocessData] returns *)

Section PreprocessFacts.
Variable cfg : Config.
Variable rnd : nat -> Q.
Variable raw : rawData.

Local Abbreviation ns := (keptNodes cfg raw).
Local Abbreviation ls := (keptLinks cfg raw).
Local Abbreviation fresh := (freshNodes cfg rnd raw).

Lemma builtGraph_eq :
  builtGraph cfg rnd raw
  = MkGraph (seq 0 (length fresh)) (resolved (nodeById fresh) ls).
Proof.
  unfold builtGraph, preprocessData, freshNodes, keptLinks, keptNodes.
  destruct (truncate (maxNodes cfg) raw) as [ns0 ls0]. simpl.
  pose proof (processLinks_spec (processNodes cfg rnd ns0 0).1 ls0) as [H1 H2].
  destruct (processLinks (processNodes cfg rnd ns0 0).1 ls0) as [h out].
  simpl in *. subst out. f_equal.
  rewrite length_map. f_equal.
  by eapply (lookup_fmap_length (fun r => linked r _)).
Qed.

Lemma builtHeap_lookup r :
  builtHeap cfg rnd raw !! r
  = (fun n0 => computeRadius cfg (linked r (links (builtGraph cfg rnd raw)) n0))
      <$> fresh !! r.
Proof.
  rewrite builtGraph_eq. simpl.
  unfold builtHeap, preprocessData, freshNodes, keptLinks, keptNodes.
  destruct (truncate (maxNodes cfg) raw) as [ns0 ls0]. simpl.
  pose proof (processLinks_spec (processNodes cfg rnd ns0 0).1 ls0) as [H1 H2].
  destruct (processLinks (processNodes cfg rnd ns0 0).1 ls0) as [h out].
  simpl in *. rewrite map_fmap, list_lookup_fmap, H1.
  by destruct ((processNodes cfg rnd ns0 0).1 !! r).
Qed.

Lemma builtHeap_length : length (builtHeap cfg rnd raw) = length fresh.
Proof.
  eapply (lookup_fmap_length
            (fun r n0 => computeRadius cfg (linked r _ n0))).
  apply builtHeap_lookup.
Qed.

(** A field that the link pass and the radius pass leave alone has in the
    built heap the value that the node object was created with. *)
Lemma builtHeap_field {B : Type} (f : node -> B) :
  (forall r out n, f (computeRadius cfg (linked r out n)) = f n) ->
  map f (builtHeap cfg rnd raw) = map f fresh.
Proof.
  intros Hf. apply list_eq. intros r.
  rewrite !map_fmap, !list_lookup_fmap, builtHeap_lookup.
  destruct (fresh !! r); simpl; by rewrite ?Hf.
Qed.

Lemma builtHeap_originalData :
  map n_originalData (builtHeap cfg rnd raw) = ns.
Proof.
  rewrite (builtHeap_field n_originalData) by done.
  apply processNodes_originalData.
Qed.

Lemma builtHeap_id :
  map n_id (builtHeap cfg rnd raw) = map raw_id ns.
Proof.
  rewrite (builtHeap_field n_id) by done.
  transitivity (map raw_id (map n_originalData fresh)).
  - rewrite !map_fmap, <- list_fmap_compose.
    apply list_fmap_ext. intros r n Hn. simpl.
    pose proof (processNodes_fresh cfg rnd ns 0) as Hall.
    by destruct (Forall_lookup_1 _ _ _ _ Hall Hn) as [? _].
  - f_equal. apply processNodes_originalData.
Qed.

(** Degree, neighbour set and radius of the node object at [r]. *)
Lemma builtHeap_node r n :
  builtHeap cfg rnd raw !! r = Some n ->
  n_degree n = degreeIn r (links (builtGraph cfg rnd raw))
  /\ n_neighbors n
     = list_to_set (neighborsIn r (links (builtGraph cfg rnd raw)))
  /\ n_radius n = radiusOf cfg (n_degree n).
Proof.
  rewrite builtHeap_lookup. intros Hn.
  destruct (fresh !! r) as [n0|] eqn:Hr; [|done].
  injection Hn as <-.
  pose proof (processNodes_fresh cfg rnd ns 0) as Hall.
  destruct (Forall_lookup_1 _ _ _ _ Hall Hr) as (_ & Hd & Hnb).
  simpl. rewrite Hd, Hnb. split; [done|]. split; [set_solver | done].
Qed.

(** Every link object joins two node objects of the heap, those that
    carry the ids of the input link. *)
Lemma builtGraph_link_endpoints l :
  l ∈ links (builtGraph cfg rnd raw) ->
  (exists n, builtHeap cfg rnd raw !! l_source l = Some n
             /\ n_id n = raw_source (l_originalData l))
  /\ (exists n, builtHeap cfg rnd raw !! l_target l = Some n
                /\ n_id n = raw_target (l_originalData l)).
Proof.
  intros Hl. pose proof Hl as Hl'.
  rewrite builtGraph_eq in Hl'. simpl in Hl'.
  apply resolved_elem in Hl' as (Hs & Ht & _).
  apply nodeById_Some in Hs as (ns & Hns & Hids).
  apply nodeById_Some in Ht as (nt & Hnt & Hidt).
  split; eexists; rewrite builtHeap_lookup.
  - rewrite Hns. simpl. by split.
  - rewrite Hnt. simpl. by split.
Qed.

Lemma builtGraph_link_bounds l :
  l ∈ links (builtGraph cfg rnd raw) ->
  l_source l < length (builtHeap cfg rnd raw)
  /\ l_target l < length (builtHeap cfg rnd raw).
Proof.
  intros [(ns & Hs & _) (nt & Ht & _)]%builtGraph_link_endpoints.
  split; by eapply lookup_lt_Some.
Qed.

Lemma builtGraph_nodes :
  nodes (builtGraph cfg rnd raw) = seq 0 (length (builtHeap cfg rnd raw)).
Proof. by rewrite builtHeap_length, builtGraph_eq. Qed.

(** The input links behind the link objects: those whose two ids are ids
    of node objects. *)
Lemma builtGraph_links_originalData :
  map l_originalData (links (builtGraph cfg rnd raw))
  = filter (fun l => raw_source l ∈ map n_id (builtHeap cfg rnd raw)
                     /\ raw_target l ∈ map n_id (builtHeap cfg rnd raw))
           ls.
Proof.
  rewrite builtGraph_eq. simpl. rewrite resolved_originalData.
  apply list_filter_iff. intros l.
  rewrite !nodeById_elem, (builtHeap_field n_id) by done. done.
Qed.
End PreprocessFacts.

(** ** Truncation to the [maxNodes] nodes of highest degree *)

Lemma withDegree_ranked raw :
  map (withDegree (nodeDegrees (raw_links raw))) (raw_nodes raw)
  = rankedInput raw.
Proof.
  unfold rankedInput. apply map_ext. intros n. unfold withDegree.
  by rewrite nodeDegrees_count.
Qed.

Lemma truncate_over cfg raw :
  maxNodes cfg < length (raw_nodes raw) ->
  keptNodes cfg raw = take (maxNodes cfg) (sortDesc rankKey (rankedInput raw))
  /\ keptLinks cfg raw
     = selectLinks (selectedNodeIds (keptNodes cfg raw)) (raw_links raw).
Proof.
  intros Hlt. unfold keptNodes, keptLinks, truncate.
  apply Nat.ltb_lt in Hlt. rewrite Hlt. simpl.
  unfold sortedNodes. by rewrite withDegree_ranked.
Qed.

Lemma truncate_under cfg raw :
  length (raw_nodes raw) <= maxNodes cfg ->
  keptNodes cfg raw = raw_nodes raw /\ keptLinks cfg raw = raw_links raw.
Proof.
  intros Hle. unfold keptNodes, keptLinks, truncate.
  apply Nat.ltb_ge in Hle. by rewrite Hle.
Qed.

(** C1. When the input has more than [maxNodes] nodes, [preprocessData]
    returns exactly [maxNodes] node objects: the first [maxNodes] of the input
    nodes arranged by pre-truncation degree, largest first, nodes of equal
    degree in input order; no node left out has a larger degree than a node
    kept.  The counter of an id, in the node list or not,
    is the number of link endpoints carrying it.  The returned links are the input links whose two
    ids are ids of returned nodes, and each link object joins two node objects
    of the returned heap. *)
Theorem truncation_keeps_top_degree_nodes cfg rnd raw :
  maxNodes cfg < length (raw_nodes raw) ->
  let h := builtHeap cfg rnd raw in
  let g := builtGraph cfg rnd raw in
  length h = maxNodes cfg
  /\ nodes g = seq 0 (maxNodes cfg)
  /\ map n_id h = map raw_id (map n_originalData h)
  /\ (forall i, default 0 (nodeDegrees (raw_links raw) !! i)
                = endpointCount i (raw_links raw))
  /\ (exists rest,
        StableDescSort rankKey (rankedInput raw) (map n_originalData h ++ rest)
        /\ forall a b, a ∈ map n_originalData h -> b ∈ rest ->
                       rankKey b <= rankKey a)
  /\ map l_originalData (links g)
     = filter (fun l => raw_source l ∈ map n_id h /\ raw_target l ∈ map n_id h)
              (raw_links raw)
  /\ Forall (fun l =>
               (exists n, h !! l_source l = Some n
                          /\ n_id n = raw_source (l_originalData l))
               /\ (exists n, h !! l_target l = Some n
                             /\ n_id n = raw_target (l_originalData l)))
            (links g).
Proof.
  intros Hlt h g. subst h g.
  destruct (truncate_over cfg raw Hlt) as [Hns Hls].
  assert (length (builtHeap cfg rnd raw) = maxNodes cfg) as Hlen.
  { rewrite builtHeap_length. unfold freshNodes.
    rewrite processNodes_length, Hns, length_take, sortDesc_length.
    unfold rankedInput. rewrite length_map. lia. }
  split; [done|].
  split; [by rewrite builtGraph_nodes, Hlen|].
  split; [by rewrite builtHeap_id, builtHeap_originalData|].
  split; [intros i; apply nodeDegrees_count|].
  split.
  { exists (drop (maxNodes cfg) (sortDesc rankKey (rankedInput raw))).
    rewrite builtHeap_originalData, Hns.
    split; [rewrite take_drop; apply sortDesc_stable|].
    intros a b Ha Hb.
    pose proof (sortDesc_descending rankKey (rankedInput raw)) as Hd.
    rewrite <- (take_drop (maxNodes cfg)) in Hd.
    apply (StronglySorted_app_1_elem_of _ _ _ a b Hd Ha Hb). }
  split.
  { rewrite builtGraph_links_originalData, Hls. unfold selectLinks.
    rewrite list_filter_filter. apply list_filter_iff. intros l.
    unfold selectedNodeIds. rewrite !elem_of_list_to_set, builtHeap_id.
    tauto. }
  apply Forall_forall. intros l Hl.
  by apply builtGraph_link_endpoints.
Qed.

Lemma truncation_keeps_top_degree_nodes_witness :
  length (builtHeap (ex_cfg 3) ex_rnd ex_raw) = 3.
Proof.
  apply (truncation_keeps_top_degree_nodes (ex_cfg 3) ex_rnd ex_raw).
  simpl. lia.
Defined.

(** A link to an id that no node has counts for the ranking and is then
    dropped: node 1 (two endpoints) is ranked before node 2 (one). *)
Example truncation_unknown_id :
  let raw := RawData (map (fun z => RawNode (IdNum z) None None) [2; 1; 3]%Z)
                     [RawLink (IdNum 1) (IdNum 9); RawLink (IdNum 1) (IdNum 2)] in
  nodeDegrees (raw_links raw) !! IdNum 9 = Some 1
  /\ map n_id (builtHeap (ex_cfg 2) ex_rnd raw) = [IdNum 1; IdNum 2]
  /\ map l_originalData (links (builtGraph (ex_cfg 2) ex_rnd raw))
     = [RawLink (IdNum 1) (IdNum 2)].
Proof. by vm_compute. Qed.

(** With room for two nodes only, the tie between nodes 2 and 3 (degree 2)
    goes to node 2, which comes first in the input. *)
Example truncation_tie_break :
  map n_id (builtHeap (ex_cfg 2) ex_rnd ex_raw) = [IdNum 1; IdNum 2]
  /\ map l_originalData (links (builtGraph (ex_cfg 2) ex_rnd ex_raw))
     = [RawLink (IdNum 1) (IdNum 2)].
Proof. by vm_compute. Qed.

(** ** Degree and neighbour set of the returned nodes *)

Lemma elem_of_neighborsIn x r ls :
  x ∈ neighborsIn r ls <->
  exists l, l ∈ ls /\ ((l_source l = r /\ l_target l = x)
                       \/ (l_target l = r /\ l_source l = x)).
Proof.
  unfold neighborsIn. rewrite list_elem_of_In, in_flat_map.
  split; intros (l & Hl & Hx); exists l.
  - apply list_elem_of_In in Hl. split; [done|].
    apply in_app_or in Hx as [Hx|Hx]; case_decide; simpl in Hx;
      try done; destruct Hx as [<-|[]]; auto.
  - apply list_elem_of_In in Hl. split; [done|].
    apply in_or_app.
    destruct Hx as [[? ?]|[? ?]]; [left|right];
      rewrite decide_True by done; by left.
Qed.

Lemma neighborsIn_cons r l ls :
  neighborsIn r (l :: ls)
  = (if decide (l_source l = r) then [l_target l] else [])
    ++ (if decide (l_target l = r) then [l_source l] else [])
    ++ neighborsIn r ls.
Proof. unfold neighborsIn. simpl. by rewrite <- app_assoc. Qed.

Lemma resolved_cons byId l ls :
  resolved byId (l :: ls)
  = match resolve byId l with
    | Some x => x :: resolved byId ls
    | None => resolved byId ls
    end.
Proof. reflexivity. Qed.

Lemma degreeIn_incident r ls :
  Forall (fun l => l_source l <> l_target l) ls ->
  degreeIn r ls = length (filter (incident r) ls).
Proof.
  unfold degreeIn, incident. induction 1 as [|l ls Hl _ IH]; [done|].
  rewrite !filter_cons.
  repeat case_decide; simpl; try lia; try tauto; congruence.
Qed.

Section ResolvedSimple.
Variable byId : gmap ident nat.
Hypothesis byId_inj :
  forall i j r, byId !! i = Some r -> byId !! j = Some r -> i = j.

Lemma resolved_no_loop ls :
  Forall (fun l => raw_source l <> raw_target l) ls ->
  Forall (fun l => l_source l <> l_target l) (resolved byId ls).
Proof.
  intros Hall. apply Forall_forall. intros l Hl.
  apply resolved_elem in Hl as (Hs & Ht & Hin).
  rewrite Forall_forall in Hall. specialize (Hall _ Hin).
  intros Heq. rewrite Heq in Hs. eauto.
Qed.

Lemma resolved_neighbors_NoDup r ls :
  SimpleLinks ls -> NoDup (neighborsIn r (resolved byId ls)).
Proof.
  intros [Hloop Hpairs].
  induction Hpairs as [|l ls Hl Hpairs IH]; [constructor|].
  apply Forall_cons in Hloop as [Hne Hloop].
  specialize (IH Hloop). rewrite resolved_cons.
  destruct (resolve byId l) as [x|] eqn:Hx; [|done].
  unfold resolve in Hx.
  destruct (byId !! raw_source l) as [s|] eqn:Hs; [|done].
  destruct (byId !! raw_target l) as [t|] eqn:Ht; [|done].
  injection Hx as <-.
  assert (s <> t) as Hst by (intros ->; eauto).
  assert (forall a b, (a = s /\ b = t) \/ (a = t /\ b = s) ->
                      forall l', l' ∈ resolved byId ls ->
                      l_source l' = a -> l_target l' = b -> False) as Hfresh.
  { intros a b Hab l' Hl' Ha Hb.
    apply resolved_elem in Hl' as (Hs' & Ht' & Hin).
    rewrite Forall_forall in Hl. apply (Hl _ Hin).
    rewrite Ha in Hs'. rewrite Hb in Ht'.
    destruct Hab as [[-> ->]|[-> ->]]; [left|right]; split; eauto. }
  rewrite neighborsIn_cons. simpl.
  repeat case_decide; simpl; try done; try congruence.
  - constructor; [|done].
    intros (l' & Hl' & Hx)%elem_of_neighborsIn.
    apply (Hfresh (l_source l') (l_target l')) with l'; [|done..].
    destruct Hx as [[? ?]|[? ?]];
      first [left; split; congruence | right; split; congruence].
  - constructor; [|done].
    intros (l' & Hl' & Hx)%elem_of_neighborsIn.
    apply (Hfresh (l_source l') (l_target l')) with l'; [|done..].
    destruct Hx as [[? ?]|[? ?]];
      first [left; split; congruence | right; split; congruence].
Qed.
End ResolvedSimple.

Lemma keptLinks_simple cfg raw :
  SimpleLinks (raw_links raw) -> SimpleLinks (keptLinks cfg raw).
Proof.
  intros [Hloop Hpairs]. unfold keptLinks, truncate.
  destruct (maxNodes cfg <? length (raw_nodes raw)); [|done].
  simpl. unfold selectLinks. split.
  - rewrite Forall_forall in Hloop |- *.
    intros l [_ Hl]%list_elem_of_filter. by apply Hloop.
  - by apply ForallOrdPairs_filter.
Qed.

(** C2, as amended.  The degree of a returned node is the number of
    endpoints of returned links at that node (a link from a node to itself
    counts twice), computed over the links kept after truncation, and its
    neighbour set holds the other endpoints of those links.  When the input
    has no link from an id to itself and no two links joining the same two
    ids in either direction, the degree is the number of returned links
    incident to the node and the neighbour set has that size. *)
Theorem degree_counts_retained_endpoints cfg rnd raw r n :
  builtHeap cfg rnd raw !! r = Some n ->
  let ls := links (builtGraph cfg rnd raw) in
  n_degree n = degreeIn r ls
  /\ n_neighbors n = list_to_set (neighborsIn r ls)
  /\ (SimpleLinks (raw_links raw) ->
      n_degree n = length (filter (incident r) ls)
      /\ size (n_neighbors n) = n_degree n).
Proof.
  intros Hn ls. subst ls.
  destruct (builtHeap_node cfg rnd raw r n Hn) as (Hd & Hnb & _).
  split; [done|]. split; [done|].
  intros Hsimple. apply (keptLinks_simple cfg) in Hsimple.
  rewrite Hd, Hnb, builtGraph_eq. simpl. split.
  - apply degreeIn_incident, resolved_no_loop; [apply nodeById_inj|].
    by destruct Hsimple.
  - rewrite size_list_to_set, neighborsIn_length; [done|].
    apply resolved_neighbors_NoDup; [apply nodeById_inj | done].
Qed.

Lemma degree_counts_retained_endpoints_witness :
  exists n, builtHeap (ex_cfg 5) ex_rnd ex_raw !! 0 = Some n
            /\ n_degree n = 3 /\ size (n_neighbors n) = n_degree n.
Proof.
  eexists. split; [reflexivity|].
  destruct (degree_counts_retained_endpoints (ex_cfg 5) ex_rnd ex_raw 0 _
              eq_refl) as (Hd & _ & Hs).
  split; [exact Hd|]. apply Hs.
  split.
  - repeat constructor; by vm_compute.
  - repeat constructor; vm_compute; intros [[? ?]|[? ?]]; congruence.
Defined.

(** C2 fails as worded: a link from node 1 to itself gives node 1 degree 2
    with one incident link and one neighbour, and links 1-2 and 2-1, which
    are different (source, target) pairs, give node 1 degree 2 with one
    neighbour. *)
Lemma degree_claim_counterexample :
  ~ DegreeClaim (ex_cfg 5) ex_rnd loop_raw
  /\ ~ DegreeClaim (ex_cfg 5) ex_rnd twoway_raw.
Proof.
  split; intros H.
  - destruct (H 0 _ eq_refl) as [Hdeg _]. vm_compute in Hdeg. discriminate.
  - destruct (H 0 _ eq_refl) as [_ Hsize].
    assert (NoDup (raw_links twoway_raw)) as Hnd.
    { apply NoDup_cons. split; [|apply NoDup_singleton].
      intros Hin. apply list_elem_of_singleton in Hin. discriminate. }
    specialize (Hsize Hnd). vm_compute in Hsize. discriminate.
Qed.

(** ** Node radius *)

Section Radius.
Variable cfg : Config.
Local Open Scope Q_scope.

Local Abbreviation third d := (inject_Z (Z.of_nat d) / 3).

Lemma third_mono (d d' : nat) : (d <= d')%nat -> third d <= third d'.
Proof.
  intros Hle.
  assert (inject_Z (Z.of_nat d) <= inject_Z (Z.of_nat d')) as H.
  { rewrite <- Zle_Qle. lia. }
  apply Qmult_le_compat_r; [exact H | discriminate].
Qed.

Lemma radiusOf_mono (d d' : nat) :
  (d <= d')%nat -> radiusOf cfg d <= radiusOf cfg d'.
Proof.
  intros Hle%third_mono. unfold radiusOf.
  apply Q.max_le_compat_l, Q.min_le_compat_l, Hle.
Qed.

Lemma radiusOf_lower d : minNodeRadius cfg <= radiusOf cfg d.
Proof. apply Q.le_max_l. Qed.

Lemma radiusOf_upper d :
  minNodeRadius cfg <= maxNodeRadius cfg ->
  radiusOf cfg d <= maxNodeRadius cfg.
Proof.
  intros Hle. unfold radiusOf.
  apply Q.max_lub; [done | apply Q.le_min_l].
Qed.

(** [radiusOf] is [degree / 3] brought into the interval. *)
Lemma radiusOf_clamp d :
  minNodeRadius cfg <= maxNodeRadius cfg ->
  (third d < minNodeRadius cfg -> radiusOf cfg d == minNodeRadius cfg)
  /\ (minNodeRadius cfg <= third d <= maxNodeRadius cfg ->
      radiusOf cfg d == third d)
  /\ (maxNodeRadius cfg < third d -> radiusOf cfg d == maxNodeRadius cfg).
Proof.
  intros Hle. unfold radiusOf.
  destruct (Q.min_spec (maxNodeRadius cfg) (third d)) as [[H1 ->]|[H1 ->]];
    destruct (Q.max_spec (minNodeRadius cfg) (maxNodeRadius cfg))
      as [[H2 H2']|[H2 H2']];
    destruct (Q.max_spec (minNodeRadius cfg) (third d)) as [[H3 H3']|[H3 H3']];
    rewrite ?H2', ?H3'; repeat split; intros; lra.
Qed.
End Radius.

(** C7. With [minNodeRadius <= maxNodeRadius], every returned node has the
    radius [degree / 3] clamped into [[minNodeRadius, maxNodeRadius]], where
    [degree] is the node's final degree, counted over the links kept after
    truncation; so the radius lies in that interval, and of two returned
    nodes the one of larger degree has the larger or equal radius. *)
Theorem radius_is_clamped_degree cfg rnd raw r n :
  (minNodeRadius cfg <= maxNodeRadius cfg)%Q ->
  builtHeap cfg rnd raw !! r = Some n ->
  let third := (inject_Z (Z.of_nat (n_degree n)) / 3)%Q in
  n_degree n = degreeIn r (links (builtGraph cfg rnd raw))
  /\ n_radius n
     = Qmax (minNodeRadius cfg) (Qmin (maxNodeRadius cfg) third)
  /\ ((third < minNodeRadius cfg)%Q -> (n_radius n == minNodeRadius cfg)%Q)
  /\ ((minNodeRadius cfg <= third <= maxNodeRadius cfg)%Q ->
      (n_radius n == third)%Q)
  /\ ((maxNodeRadius cfg < third)%Q -> (n_radius n == maxNodeRadius cfg)%Q)
  /\ (minNodeRadius cfg <= n_radius n <= maxNodeRadius cfg)%Q
  /\ (forall r' n', builtHeap cfg rnd raw !! r' = Some n' ->
                    n_degree n <= n_degree n' ->
                    (n_radius n <= n_radius n')%Q).
Proof.
  intros Hle Hn third. subst third.
  destruct (builtHeap_node cfg rnd raw r n Hn) as (Hd & _ & Hr).
  destruct (radiusOf_clamp cfg (n_degree n) Hle) as (Hlo & Hmid & Hhi).
  rewrite Hr.
  split; [done|]. split; [done|].
  split; [done|]. split; [done|]. split; [done|].
  split; [split; [apply radiusOf_lower | by apply radiusOf_upper]|].
  intros r' n' Hn' Hdeg.
  destruct (builtHeap_node cfg rnd raw r' n' Hn') as (_ & _ & ->).
  by apply radiusOf_mono.
Qed.

Lemma radius_is_clamped_degree_witness :
  exists n, builtHeap (defaultConfig 800 720) ex_rnd ex_raw !! 0 = Some n
            /\ (2 <= n_radius n <= 6)%Q.
Proof.
  eexists. split; [reflexivity|].
  apply (radius_is_clamped_degree (defaultConfig 800 720) ex_rnd ex_raw 0).
  - by vm_compute.
  - reflexivity.
Defined.

(** ** The degree filter *)

Lemma join_data {D E : Type} (fresh : D -> E) (bind : D -> E -> E)
    (datum : E -> D) (ds : list D) (es : list E) :
  (forall d, datum (fresh d) = d) ->
  (forall d e, datum (bind d e) = d) ->
  map datum (join fresh bind ds es) = ds.
Proof.
  intros Hf Hb. revert es.
  induction ds as [|d ds IH]; intros es; simpl; [done|].
  destruct es as [|e es]; simpl; by rewrite ?Hf, ?Hb, IH.
Qed.

Lemma init_eq cfg rnd raw :
  let st := init cfg rnd raw in
  heap st = builtHeap cfg rnd raw
  /\ data st = builtGraph cfg rnd raw
  /\ filteredData st = builtGraph cfg rnd raw
  /\ currentHighlighted st = None
  /\ map ne_datum (nodeGroup st) = nodes (builtGraph cfg rnd raw)
  /\ map le_datum (linkGroup st) = links (builtGraph cfg rnd raw)
  /\ sim_nodes (simulation st) = nodes (builtGraph cfg rnd raw)
  /\ sim_links (simulation st) = links (builtGraph cfg rnd raw)
  /\ sim_alpha (simulation st) = simulationAlpha cfg.
Proof.
  unfold init, builtHeap, builtGraph.
  destruct (preprocessData cfg rnd raw) as [h g]. simpl.
  unfold enterAppend. rewrite !drop_nil, !app_nil_r.
  repeat split; try done; by apply join_data.
Qed.

Lemma builtGraph_closed cfg rnd raw : GraphClosed (builtGraph cfg rnd raw).
Proof.
  apply Forall_forall. intros l Hl.
  destruct (builtGraph_link_bounds cfg rnd raw l Hl) as [Hs Ht].
  rewrite builtGraph_nodes, !elem_of_seq. lia.
Qed.

Lemma init_closed cfg rnd raw : GraphClosed (data (init cfg rnd raw)).
Proof.
  destruct (init_eq cfg rnd raw) as (_ & -> & _). apply builtGraph_closed.
Qed.

Lemma filterByDegree_data d st : data (filterByDegree d st) = data st.
Proof. reflexivity. Qed.

Lemma filterByDegree_filteredData d st :
  filteredData (filterByDegree d st)
  = MkGraph (filter (withinDegree st d) (nodes (data st)))
            (filter (fun l => withinDegree st d (l_source l)
                              /\ withinDegree st d (l_target l))
                    (links (data st))).
Proof. reflexivity. Qed.

(** In a graph closed under endpoints, a link passes the degree test on
    both endpoints exactly when both endpoints are visible. *)
Lemma filterByDegree_links st d :
  GraphClosed (data st) ->
  let v := filteredData (filterByDegree d st) in
  links v
  = filter (fun l => l_source l ∈ nodes v /\ l_target l ∈ nodes v)
           (links (data st)).
Proof.
  intros Hclosed v. subst v. rewrite filterByDegree_filteredData. simpl.
  unfold GraphClosed in Hclosed. rewrite Forall_forall in Hclosed.
  induction (links (data st)) as [|l ls IH]; [done|].
  rewrite !filter_cons.
  destruct (Hclosed l) as [Hs Ht]; [by left|].
  rewrite IH by (intros l' Hl'; apply Hclosed; by right).
  repeat case_decide; try done; exfalso.
  - rewrite !list_elem_of_filter in *. tauto.
  - rewrite !list_elem_of_filter in *. tauto.
Qed.

(** C3. After [filterByDegree d], the visible nodes are the nodes of the
    full graph of degree at most [d], in their order; the visible links are
    the links of the full graph with both endpoints visible; a larger
    threshold shows at least what a smaller one shows; the full graph and
    the degrees are untouched.  On the five-node example the degrees are 3, 2, 2, 1, 0 and
    threshold 2 shows nodes 2, 3, 4, 5 and the link 2-3. *)
Theorem filterByDegree_visible_subgraph st d :
  GraphClosed (data st) ->
  let v := filteredData (filterByDegree d st) in
  nodes v
  = filter (fun r => (Z.of_nat (n_degree (nodeAt st r)) <= d)%Z)
           (nodes (data st))
  /\ (forall r, r ∈ nodes v <->
                r ∈ nodes (data st)
                /\ (Z.of_nat (n_degree (nodeAt st r)) <= d)%Z)
  /\ links v
     = filter (fun l => l_source l ∈ nodes v /\ l_target l ∈ nodes v)
              (links (data st))
  /\ (forall d', (d <= d')%Z ->
        nodes v ⊆ nodes (filteredData (filterByDegree d' st))
        /\ links v ⊆ links (filteredData (filterByDegree d' st)))
  /\ data (filterByDegree d st) = data st
  /\ (forall r, n_degree (nodeAt (filterByDegree d st) r)
                = n_degree (nodeAt st r))
  /\ map (fun n => (n_id n, n_degree n)) (heap ex_st)
     = [(IdNum 1, 3); (IdNum 2, 2); (IdNum 3, 2); (IdNum 4, 1); (IdNum 5, 0)]
  /\ map (fun r => n_id (nodeAt ex_st r))
         (nodes (filteredData (filterByDegree 2 ex_st)))
     = [IdNum 2; IdNum 3; IdNum 4; IdNum 5]
  /\ map l_originalData (links (filteredData (filterByDegree 2 ex_st)))
     = [RawLink (IdNum 2) (IdNum 3)].
Proof.
  intros Hclosed v. subst v. rewrite filterByDegree_filteredData. simpl.
  split; [done|].
  split. { intros r. rewrite list_elem_of_filter. unfold withinDegree. tauto. }
  split; [by apply filterByDegree_links|].
  split.
  { intros d' Hle. unfold withinDegree.
    split; intros x; rewrite !list_elem_of_filter; intros; intuition lia. }
  split; [done|]. split; [done|].
  by vm_compute.
Qed.

Lemma filterByDegree_visible_subgraph_witness :
  nodes (filteredData (filterByDegree 2 ex_st)) = [1; 2; 3; 4].
Proof.
  destruct (filterByDegree_visible_subgraph ex_st 2) as [-> _].
  - apply init_closed.
  - reflexivity.
Defined.

(** ** Search and focus *)

Lemma highlightNode_frame r st :
  let st' := highlightNode r st in
  heap st' = heap st /\ data st' = data st
  /\ filteredData st' = filteredData st
  /\ simulation st' = simulation st /\ alerts st' = alerts st
  /\ currentHighlighted st' = Some r
  /\ detailNode st' = Some r /\ detailActive st' = true.
Proof. by repeat split. Qed.

Lemma highlightNode_nodeGroup r st :
  nodeGroup (highlightNode r st)
  = map (fun e =>
           NodeElem (ne_datum e)
             (bool_decide (n_id (nodeAt st (ne_datum e)) = n_id (nodeAt st r)))
             (bool_decide (ne_datum e ∈ n_neighbors (nodeAt st r)))
             (ne_hidden e) (ne_cx e) (ne_cy e))
        (nodeGroup st).
Proof.
  unfold highlightNode, clearHighlight. simpl.
  rewrite !map_map. apply map_ext. intros e. unfold nodeAt. simpl.
  repeat case_decide; simpl;
    rewrite ?bool_decide_eq_true_2, ?bool_decide_eq_false_2 by done;
    by repeat case_decide.
Qed.

Lemma highlightNode_linkGroup r st :
  linkGroup (highlightNode r st)
  = map (fun e =>
           LinkElem (le_datum e)
             (bool_decide
                (n_id (nodeAt st (l_source (le_datum e))) = n_id (nodeAt st r)
                 \/ n_id (nodeAt st (l_target (le_datum e))) = n_id (nodeAt st r)))
             (le_hidden e) (le_x1 e) (le_y1 e) (le_x2 e) (le_y2 e))
        (linkGroup st).
Proof.
  unfold highlightNode, clearHighlight. simpl.
  rewrite !map_map. apply map_ext. intros e. unfold nodeAt. simpl.
  case_decide; simpl;
    by rewrite ?bool_decide_eq_true_2, ?bool_decide_eq_false_2 by done.
Qed.

Lemma centerOnNode_frame r st :
  let st' := centerOnNode r st in
  alerts st' = alerts st /\ currentHighlighted st' = currentHighlighted st
  /\ nodeGroup st' = nodeGroup st /\ linkGroup st' = linkGroup st
  /\ detailNode st' = detailNode st /\ heap st' = heap st
  /\ data st' = data st /\ filteredData st' = filteredData st.
Proof. by repeat split. Qed.

Lemma findVisible_Some sid st r :
  findVisible sid st = Some r ->
  r ∈ nodes (filteredData st) /\ toString (n_id (nodeAt st r)) = sid.
Proof.
  unfold findVisible.
  destruct (list_find _ _) as [[i x]|] eqn:Hf; [|done].
  intros [= <-]. apply list_find_Some in Hf as (Hi & Hx & _).
  split; [by eapply list_elem_of_lookup_2 | done].
Qed.

Lemma findVisible_None sid st :
  findVisible sid st = None <->
  ~ exists r, r ∈ nodes (filteredData st)
              /\ toString (n_id (nodeAt st r)) = sid.
Proof.
  unfold findVisible. split.
  - destruct (list_find _ _) as [[i x]|] eqn:Hf; [done|]. intros _.
    apply list_find_None in Hf. rewrite Forall_forall in Hf.
    intros (r & Hr & Hm). by apply (Hf r).
  - intros Hno. destruct (list_find _ _) as [[i x]|] eqn:Hf; [|done].
    apply list_find_Some in Hf as (Hi & Hx & _).
    exfalso. apply Hno. exists x.
    split; [by eapply list_elem_of_lookup_2 | done].
Qed.

(** C4, as amended.  [searchNode] looks the id up among the currently
    visible (filtered) nodes, by the string form of the id.  For a non-empty
    search text it reports not-found exactly when no visible node has that
    id, and then changes nothing else; otherwise it focuses a visible node
    with that id: that node becomes the one current highlighted node, the
    highlighted class is carried by exactly the elements showing that id,
    whatever was highlighted before, and no alert is raised. *)
Theorem searchNode_looks_up_visible_nodes st sid :
  sid <> EmptyString ->
  let st' := searchNode sid st in
  let matches r := toString (n_id (nodeAt st r)) = sid in
  let absent := ~ exists r, r ∈ nodes (filteredData st) /\ matches r in
  (alerts st' = alerts st ++ [AlertNotFound sid] <-> absent)
  /\ (absent -> st' = raiseAlert (AlertNotFound sid) st)
  /\ (~ absent ->
      exists r, r ∈ nodes (filteredData st) /\ matches r
        /\ currentHighlighted st' = Some r
        /\ alerts st' = alerts st
        /\ Forall (fun e =>
                     ne_highlighted e
                     = bool_decide (n_id (nodeAt st (ne_datum e))
                                    = n_id (nodeAt st r)))
                  (nodeGroup st')
        /\ Forall (fun e =>
                     le_highlighted e
                     = bool_decide
                         (n_id (nodeAt st (l_source (le_datum e)))
                          = n_id (nodeAt st r)
                          \/ n_id (nodeAt st (l_target (le_datum e)))
                             = n_id (nodeAt st r)))
                  (linkGroup st')
        /\ detailNode st' = Some r
        /\ heap st' = heap st /\ data st' = data st
        /\ filteredData st' = filteredData st).
Proof.
  intros Hne st' matches absent. subst st' matches absent.
  unfold searchNode. rewrite decide_False by done.
  destruct (findVisible sid st) as [r|] eqn:Hf.
  - destruct (findVisible_Some _ _ _ Hf) as [Hr Hm].
    assert (exists r0, r0 ∈ nodes (filteredData st)
                       /\ toString (n_id (nodeAt st r0)) = sid) as Hex
      by eauto.
    destruct (centerOnNode_frame r (highlightNode r st))
      as (Hc1 & Hc2 & Hc3 & Hc4 & Hc5 & Hc6 & Hc7 & Hc8).
    destruct (highlightNode_frame r st)
      as (Hh1 & Hh2 & Hh3 & _ & Hh5 & Hh6 & Hh7 & _).
    rewrite Hc1, Hc2, Hc3, Hc4, Hc5, Hc6, Hc7, Hc8.
    rewrite Hh1, Hh2, Hh3, Hh5, Hh6, Hh7.
    split.
    { split; [|tauto]. intros Heq.
      apply (f_equal length) in Heq. rewrite length_app in Heq.
      simpl in Heq. lia. }
    split; [tauto|]. intros _. exists r.
    split; [done|]. split; [done|]. split; [done|]. split; [done|].
    split.
    { rewrite highlightNode_nodeGroup. apply Forall_forall.
      intros e (e0 & -> & _)%list_elem_of_fmap. done. }
    split.
    { rewrite highlightNode_linkGroup. apply Forall_forall.
      intros e (e0 & -> & _)%list_elem_of_fmap. done. }
    done.
  - apply findVisible_None in Hf.
    split; [done|]. split; [done|]. tauto.
Qed.

Lemma searchNode_looks_up_visible_nodes_witness :
  exists r, toString (n_id (nodeAt ex_st r)) = "4"%string
            /\ currentHighlighted (searchNode "4" ex_st) = Some r.
Proof.
  destruct (searchNode_looks_up_visible_nodes ex_st "4") as (_ & _ & H).
  - discriminate.
  - destruct H as (r & _ & Hm & Hc & _).
    + intros Habsent. apply Habsent. exists 3.
      split; [|reflexivity]. vm_compute. set_solver.
    + by exists r.
Defined.

(** C4 fails as worded: once the degree filter has removed node 1, a search
    for "1" reports not-found although node 1 is in the full graph. *)
Lemma search_claim_counterexample : ~ SearchClaim (filterByDegree 2 ex_st).
Proof.
  intros H. destruct (H "1"%string) as [Hfwd _]; [discriminate|].
  apply Hfwd; [reflexivity|].
  exists 0. split; [|reflexivity].
  change (nodes (data (filterByDegree 2 ex_st))) with (seq 0 5).
  apply elem_of_seq. lia.
Qed.

(** ** Display modes and the simulation *)

Lemma updateVisualization_spec st :
  let st' := updateVisualization st in
  sim_nodes (simulation st') = nodes (filteredData st)
  /\ sim_links (simulation st') = links (filteredData st)
  /\ sim_alpha (simulation st') = 1%Q
  /\ sim_running (simulation st') = true
  /\ map ne_datum (nodeGroup st') = nodes (filteredData st)
  /\ map le_datum (linkGroup st') = links (filteredData st)
  /\ heap st' = heap st /\ data st' = data st
  /\ filteredData st' = filteredData st
  /\ currentHighlighted st' = currentHighlighted st.
Proof.
  simpl. repeat split; by apply join_data.
Qed.

Lemma showHighlightedOnly_state st : (showHighlightedOnly st).2 = st.
Proof.
  unfold showHighlightedOnly. by destruct (nodeGroup st), (linkGroup st).
Qed.

Lemma setDisplayMode_frame mode st :
  let st' := (setDisplayMode mode st).2 in
  simulation st' = simulation st
  /\ filteredData st' = filteredData st
  /\ data st' = data st /\ heap st' = heap st
  /\ currentHighlighted st' = currentHighlighted st
  /\ map ne_datum (nodeGroup st') = map ne_datum (nodeGroup st)
  /\ map le_datum (linkGroup st') = map le_datum (linkGroup st).
Proof.
  unfold setDisplayMode, showNeighborsOnly, showAllNodes.
  repeat case_decide; rewrite ?showHighlightedOnly_state; simpl.
  - repeat split; try done; by apply map_map_same.
  - destruct (currentHighlighted st) eqn:Hc; simpl; [|done].
    repeat split; try done; by apply map_map_same.
  - done.
  - done.
Qed.

(** C5, as amended.  A degree-threshold change restarts the simulation on
    the newly visible subgraph: the simulation's node and link arrays are
    replaced by the filtered arrays, to which the rendered elements are
    rebound, alpha is set to 1 and the timer runs.  A display-mode change
    writes only classes of the rendered elements: the simulation, with its
    arrays and its alpha, and the filtered arrays stay as they were. *)
Theorem filter_change_restarts_simulation st :
  (forall d,
      let st' := filterByDegree d st in
      sim_nodes (simulation st') = nodes (filteredData st')
      /\ sim_links (simulation st') = links (filteredData st')
      /\ nodes (filteredData st')
         = filter (withinDegree st d) (nodes (data st))
      /\ sim_alpha (simulation st') = 1%Q
      /\ sim_running (simulation st') = true
      /\ map ne_datum (nodeGroup st') = nodes (filteredData st')
      /\ map le_datum (linkGroup st') = links (filteredData st'))
  /\ (forall mode,
        let st' := (setDisplayMode mode st).2 in
        simulation st' = simulation st
        /\ filteredData st' = filteredData st
        /\ map ne_datum (nodeGroup st') = map ne_datum (nodeGroup st)
        /\ map le_datum (linkGroup st') = map le_datum (linkGroup st)).
Proof.
  split.
  - intros d. simpl. repeat split; by apply join_data.
  - intros mode.
    destruct (setDisplayMode_frame mode st) as (? & ? & _ & _ & _ & ? & ?).
    done.
Qed.

(** C5 fails as worded for a display-mode change: with node 4 focused, the
    neighbours-only mode leaves nodes 1 and 4 visible, while the simulation
    keeps all five nodes and its alpha of 0.3. *)
Lemma display_mode_counterexample :
  let st := searchNode "4" ex_st in
  let st' := (setDisplayMode "neighbors" st).2 in
  visibleNodes st' = [0; 3]
  /\ sim_nodes (simulation st') = [0; 1; 2; 3; 4]
  /\ sim_alpha (simulation st') = (3 # 10)%Q
  /\ ~ RestartedOnVisible st'.
Proof.
  split; [by vm_compute|]. split; [by vm_compute|].
  split; [by vm_compute|].
  intros (H & _). vm_compute in H. discriminate.
Qed.

(** ** The neighbours-only mode *)

Lemma showNeighborsOnly_nodeGroup st h :
  currentHighlighted st = Some h ->
  nodeGroup (showNeighborsOnly st)
  = map (fun e =>
           setNodeClasses (ne_highlighted e) (ne_neighbor e)
             (bool_decide (n_id (nodeAt st (ne_datum e)) <> n_id (nodeAt st h)
                           /\ ne_datum e ∉ n_neighbors (nodeAt st h)))
             e)
        (nodeGroup st).
Proof. unfold showNeighborsOnly. by intros ->. Qed.

Lemma showNeighborsOnly_linkGroup st h :
  currentHighlighted st = Some h ->
  linkGroup (showNeighborsOnly st)
  = map (fun e =>
           setLinkClasses (le_highlighted e)
             (bool_decide
                (n_id (nodeAt st (l_source (le_datum e))) <> n_id (nodeAt st h)
                 /\ n_id (nodeAt st (l_target (le_datum e)))
                    <> n_id (nodeAt st h)))
             e)
        (linkGroup st).
Proof. unfold showNeighborsOnly. by intros ->. Qed.

Lemma visible_after_map {E D : Type} (datum : E -> D) (hid : E -> bool)
    (g : E -> E) (shown : D -> Prop) `{forall d, Decision (shown d)}
    (l : list E) :
  (forall e, datum (g e) = datum e) ->
  (forall e, hid (g e) = false <-> shown (datum e)) ->
  map datum (filter (fun e => hid e = false) (map g l))
  = filter shown (map datum l).
Proof.
  intros Hd Hh. induction l as [|e l IH]; [done|].
  cbn [map]. rewrite !filter_cons.
  destruct (decide (shown (datum e))) as [Hs|Hs].
  - rewrite decide_True by by apply Hh. cbn [map]. by rewrite Hd, IH.
  - rewrite decide_False by by rewrite Hh. done.
Qed.

(** C6, as amended.  With a node highlighted, the neighbours-only mode
    leaves visible, among the rendered nodes, exactly those showing the
    highlighted node's id or a member of its neighbour set, and among the
    rendered links exactly those with an endpoint carrying the highlighted
    node's id; nodes and links that the degree filter keeps from being
    rendered stay invisible.  It writes only the hidden class.  With no node
    highlighted the mode returns without changing the state. *)
Theorem showNeighborsOnly_visible st :
  setDisplayMode "neighbors" st = (Returned, showNeighborsOnly st)
  /\ (currentHighlighted st = None -> showNeighborsOnly st = st)
  /\ (forall h,
        currentHighlighted st = Some h ->
        let st' := showNeighborsOnly st in
        let shown r :=
          n_id (nodeAt st r) = n_id (nodeAt st h)
          \/ r ∈ n_neighbors (nodeAt st h) in
        let touches (l : link) :=
          n_id (nodeAt st (l_source l)) = n_id (nodeAt st h)
          \/ n_id (nodeAt st (l_target l)) = n_id (nodeAt st h) in
        visibleNodes st' = filter shown (map ne_datum (nodeGroup st))
        /\ visibleLinks st' = filter touches (map le_datum (linkGroup st))
        /\ Forall2 (fun e e' =>
                      e' = setNodeClasses (ne_highlighted e) (ne_neighbor e)
                             (negb (bool_decide (shown (ne_datum e)))) e)
                   (nodeGroup st) (nodeGroup st')
        /\ Forall2 (fun e e' =>
                      e' = setLinkClasses (le_highlighted e)
                             (negb (bool_decide (touches (le_datum e)))) e)
                   (linkGroup st) (linkGroup st')
        /\ heap st' = heap st /\ data st' = data st
        /\ filteredData st' = filteredData st
        /\ simulation st' = simulation st
        /\ currentHighlighted st' = Some h
        /\ alerts st' = alerts st).
Proof.
  split; [done|].
  split; [unfold showNeighborsOnly; by intros ->|].
  intros h Hh st' shown touches. subst st' shown touches.
  unfold visibleNodes, visibleLinks.
  rewrite (showNeighborsOnly_nodeGroup st h Hh).
  rewrite (showNeighborsOnly_linkGroup st h Hh).
  split.
  { apply visible_after_map; [done|]. intros e. simpl.
    rewrite bool_decide_eq_false.
    destruct (decide (n_id (nodeAt st (ne_datum e)) = n_id (nodeAt st h)));
      destruct (decide (ne_datum e ∈ n_neighbors (nodeAt st h))); tauto. }
  split.
  { apply visible_after_map; [done|]. intros e. simpl.
    rewrite bool_decide_eq_false.
    destruct (decide (n_id (nodeAt st (l_source (le_datum e)))
                      = n_id (nodeAt st h)));
      destruct (decide (n_id (nodeAt st (l_target (le_datum e)))
                        = n_id (nodeAt st h))); tauto. }
  split.
  { rewrite map_fmap. apply Forall2_fmap_r, Forall_Forall2_diag, Forall_forall.
    intros e _. simpl. rewrite <- bool_decide_not.
    unfold setNodeClasses, setLinkClasses. f_equal. apply bool_decide_ext.
    destruct (decide (n_id (nodeAt st (ne_datum e)) = n_id (nodeAt st h)));
      destruct (decide (ne_datum e ∈ n_neighbors (nodeAt st h))); tauto. }
  split.
  { rewrite map_fmap. apply Forall2_fmap_r, Forall_Forall2_diag, Forall_forall.
    intros e _. simpl. rewrite <- bool_decide_not.
    unfold setNodeClasses, setLinkClasses. f_equal. apply bool_decide_ext.
    destruct (decide (n_id (nodeAt st (l_source (le_datum e)))
                      = n_id (nodeAt st h)));
      destruct (decide (n_id (nodeAt st (l_target (le_datum e)))
                        = n_id (nodeAt st h))); tauto. }
  unfold showNeighborsOnly. rewrite Hh. by repeat split.
Qed.

Lemma showNeighborsOnly_visible_witness :
  visibleNodes (showNeighborsOnly (searchNode "1" ex_st)) = [0; 1; 2; 3].
Proof.
  destruct (showNeighborsOnly_visible (searchNode "1" ex_st))
    as (_ & _ & H).
  destruct (H 0 eq_refl) as [-> _]. by vm_compute.
Defined.

(** C6 fails as worded: with node 4 focused and the degree filter at 2,
    node 1, the neighbour of node 4, is not rendered, so the mode leaves
    only node 4 visible, and no link. *)
Lemma neighbors_only_counterexample :
  ~ NeighborsOnlyClaim (filterByDegree 2 (searchNode "4" ex_st)).
Proof.
  intros H. destruct (H 3 eq_refl) as [Hn _].
  assert (0 ∈ [3]) as Hin.
  { change [3] with (visibleNodes (showNeighborsOnly
                                     (filterByDegree 2 (searchNode "4" ex_st)))).
    apply Hn. right. by vm_compute. }
  apply list_elem_of_singleton in Hin. discriminate.
Qed.

(** ** Force parameters *)

(** C9. [updateForceParameters] leaves the heap of node objects, hence
    every position and every pin, as it is, together with the graph and the
    visible arrays.  The simulation gets the new charge strength and link
    distance, keeps its node array, alpha target and decay, has alpha set to
    0.3 and runs. *)
Theorem updateForceParameters_keeps_positions st charge distance :
  let st' := updateForceParameters charge distance st in
  heap st' = heap st
  /\ (forall r, n_x (nodeAt st' r) = n_x (nodeAt st r)
                /\ n_y (nodeAt st' r) = n_y (nodeAt st r)
                /\ n_fx (nodeAt st' r) = n_fx (nodeAt st r)
                /\ n_fy (nodeAt st' r) = n_fy (nodeAt st r))
  /\ data st' = data st
  /\ filteredData st' = filteredData st
  /\ sim_nodes (simulation st') = sim_nodes (simulation st)
  /\ sim_links (simulation st') = links (filteredData st)
  /\ sim_charge (simulation st') = inject_Z <$> charge
  /\ sim_linkDistance (simulation st') = inject_Z <$> distance
  /\ sim_alpha (simulation st') = (3 # 10)%Q
  /\ sim_alphaTarget (simulation st') = sim_alphaTarget (simulation st)
  /\ sim_alphaDecay (simulation st') = sim_alphaDecay (simulation st)
  /\ sim_running (simulation st') = true.
Proof. by repeat split. Qed.

(** A restart, by contrast, sets alpha to 1. *)
Lemma restartSimulation_alpha st :
  sim_alpha (simulation (restartSimulation st)) = 1%Q
  /\ heap (restartSimulation st) = heap st.
Proof. done. Qed.

(** ** Layout export *)

(** Distinct ids: a node of the graph is known by its id. *)
Lemma node_of_id st r r' :
  NoDup (map (fun r => n_id (nodeAt st r)) (nodes (data st))) ->
  r ∈ nodes (data st) -> r' ∈ nodes (data st) ->
  n_id (nodeAt st r) = n_id (nodeAt st r') -> r = r'.
Proof.
  intros Hnd Hr Hr' Heq. rewrite map_fmap in Hnd.
  apply list_elem_of_lookup_1 in Hr as [i Hi].
  apply list_elem_of_lookup_1 in Hr' as [j Hj].
  assert (i = j); [|congruence].
  eapply NoDup_lookup; [exact Hnd| |]; rewrite list_lookup_fmap.
  - rewrite Hi. reflexivity.
  - rewrite Hj. simpl. by rewrite Heq.
Qed.

(** C10. The layout built by [exportLayout] covers the visible subgraph:
    its node entries are, in order, one per visible node, with that node's
    id, x, y, fx and fy; its link entries are, in order, one per visible link,
    with the ids of the link's endpoints; the counts are those of the visible
    arrays.  When the ids of the full graph are distinct and the visible
    arrays are parts of the full graph, a node that is filtered out has no
    entry, and neither has a link of the full graph whose endpoints no
    visible link joins. *)
Theorem exportLayout_covers_visible_subgraph st exportTime :
  let lay := exportLayout exportTime st in
  Forall2 (fun e r =>
             e = LayoutNode (n_id (nodeAt st r)) (n_x (nodeAt st r))
                            (n_y (nodeAt st r)) (n_fx (nodeAt st r))
                            (n_fy (nodeAt st r)))
          (lay_nodes lay) (nodes (filteredData st))
  /\ Forall2 (fun e l =>
                e = LayoutLink (n_id (nodeAt st (l_source l)))
                               (n_id (nodeAt st (l_target l))))
             (lay_links lay) (links (filteredData st))
  /\ lay_nodeCount lay = length (nodes (filteredData st))
  /\ lay_linkCount lay = length (links (filteredData st))
  /\ (NoDup (map (fun r => n_id (nodeAt st r)) (nodes (data st))) ->
      GraphClosed (data st) ->
      nodes (filteredData st) ⊆ nodes (data st) ->
      links (filteredData st) ⊆ links (data st) ->
      (forall r, r ∈ nodes (data st) -> r ∉ nodes (filteredData st) ->
                 n_id (nodeAt st r) ∉ map ln_id (lay_nodes lay))
      /\ (forall l, l ∈ links (data st) ->
                    (forall l', l' ∈ links (filteredData st) ->
                                ~ (l_source l' = l_source l
                                   /\ l_target l' = l_target l)) ->
                    LayoutLink (n_id (nodeAt st (l_source l)))
                               (n_id (nodeAt st (l_target l)))
                    ∉ lay_links lay)).
Proof.
  simpl. split.
  { rewrite map_fmap. apply Forall2_fmap_l, Forall_Forall2_diag, Forall_forall.
    done. }
  split.
  { rewrite map_fmap. apply Forall2_fmap_l, Forall_Forall2_diag, Forall_forall.
    done. }
  split; [done|]. split; [done|].
  intros Hnd Hclosed Hsub Hsubl. split.
  - intros r Hr Hout Hin.
    rewrite map_map, map_fmap in Hin. simpl in Hin.
    apply list_elem_of_fmap in Hin as (r' & Heq & Hr').
    assert (r = r'); [|by subst].
    apply (node_of_id st); auto.
  - intros l Hl Hnone Hin. rewrite map_fmap in Hin.
    apply list_elem_of_fmap in Hin as (l' & Heq & Hl').
    injection Heq as Hs Ht.
    unfold GraphClosed in Hclosed. rewrite Forall_forall in Hclosed.
    destruct (Hclosed l Hl) as [Hls Hlt].
    destruct (Hclosed l' (Hsubl _ Hl')) as [Hls' Hlt'].
    apply (Hnone l' Hl'). split; apply (node_of_id st); auto.
Qed.

Lemma exportLayout_covers_visible_subgraph_witness :
  n_id (nodeAt (filterByDegree 2 ex_st) 0)
  ∉ map ln_id (lay_nodes (exportLayout "t" (filterByDegree 2 ex_st))).
Proof.
  refine (proj1 (proj2 (proj2 (proj2 (proj2
            (exportLayout_covers_visible_subgraph (filterByDegree 2 ex_st) "t"))))
            _ _ _ _) 0 _ _).
  - vm_compute. repeat constructor; set_solver.
  - rewrite filterByDegree_data. apply init_closed.
  - vm_compute. set_solver.
  - rewrite filterByDegree_filteredData, filterByDegree_data.
    intros l [_ Hl]%list_elem_of_filter. exact Hl.
  - vm_compute. set_solver.
  - vm_compute. set_solver.
Defined.

Example exportLayout_filtered :
  map ln_id (lay_nodes (exportLayout "t" (filterByDegree 2 ex_st)))
  = [IdNum 2; IdNum 3; IdNum 4; IdNum 5]
  /\ lay_links (exportLayout "t" (filterByDegree 2 ex_st))
     = [LayoutLink (IdNum 2) (IdNum 3)]
  /\ length (nodes (data (filterByDegree 2 ex_st))) = 5.
Proof. by vm_compute. Qed.

(** ** Layout import *)

(** An entry whose id no visible node has is skipped. *)
Lemma applyEntry_unknown_id entry idv st :
  getProp entry "id" = Some idv ->
  Forall (fun r => idEquals (n_id (nodeAt st r)) idv = false)
         (nodes (filteredData st)) ->
  applyEntry entry st = (Returned, st).
Proof.
  intros Hid Hall. unfold applyEntry. rewrite Hid.
  destruct (list_find _ _) as [[i r]|] eqn:Hf; [|done].
  apply list_find_Some in Hf as (Hi & Hr & _).
  rewrite Forall_forall in Hall.
  apply list_elem_of_lookup_2, Hall in Hi. simpl in Hr. congruence.
Qed.

Lemma forEach_unknown_ids entries st :
  Forall (fun entry =>
            exists idv, getProp entry "id" = Some idv
                        /\ Forall (fun r => idEquals (n_id (nodeAt st r)) idv
                                            = false)
                                  (nodes (filteredData st)))
         entries ->
  forEach applyEntry entries st = (Returned, st).
Proof.
  induction 1 as [|entry entries (idv & Hid & Hno) _ IH]; [done|].
  simpl. by rewrite (applyEntry_unknown_id entry idv st Hid Hno).
Qed.

(** A layout of entries with unknown ids moves no node; the positions are
    redrawn and the simulation is warmed to alpha 0.1. *)
Lemma applyLayout_unknown_ids entries ls st :
  truthy (Some (JArr entries)) = true -> truthy ls = true ->
  Forall (fun entry =>
            exists idv, getProp entry "id" = Some idv
                        /\ Forall (fun r => idEquals (n_id (nodeAt st r)) idv
                                            = false)
                                  (nodes (filteredData st)))
         entries ->
  forall fs,
    lookupField "nodes" fs = Some (JArr entries) ->
    lookupField "links" fs = ls ->
    let res := applyLayout (JObj fs) st in
    res.1 = Returned /\ heap res.2 = heap st /\ alerts res.2 = alerts st
    /\ sim_alpha (simulation res.2) = (1 # 10)%Q.
Proof.
  intros _ Hls Hall fs Hn Hl. unfold applyLayout. simpl.
  rewrite Hn, Hl, Hls. simpl.
  by rewrite (forEach_unknown_ids entries st Hall).
Qed.

(** A payload that [JSON.parse] rejects, a [null] payload, and a payload
    whose [nodes] is not an array are refused with the format alert and no
    other change; a payload without [nodes] or [links] is ignored. *)
Lemma importLayout_refused st :
  importLayout (FileText None) st = raiseAlert AlertLayoutFormat st
  /\ importLayout (FileText (Some JNull)) st = raiseAlert AlertLayoutFormat st
  /\ (forall fs s,
        lookupField "nodes" fs = Some (JStr s) -> s <> EmptyString ->
        truthy (lookupField "links" fs) = true ->
        importLayout (FileText (Some (JObj fs))) st
        = raiseAlert AlertLayoutFormat st)
  /\ (forall fs,
        truthy (lookupField "nodes" fs) = false ->
        importLayout (FileText (Some (JObj fs))) st = st).
Proof.
  split; [done|]. split; [done|]. split.
  - intros fs s Hn Hs Hl. unfold importLayout, applyLayout. simpl.
    rewrite Hn. simpl. rewrite bool_decide_eq_false_2 by done. simpl.
    by rewrite Hl.
  - intros fs Hn. unfold importLayout, applyLayout. simpl. by rewrite Hn.
Qed.

(** C8, the failing case.  A payload whose [nodes] array holds a valid
    entry for node 1 followed by [null] is reported as malformed, yet the
    entry before the [null] has been applied: node 1 has moved from
    (400, 300) to (10, 20), and neither [updatePositions] nor the
    simulation's re-warming has run. *)
Theorem importLayout_applies_corrupt_payload_partially :
  let st' := importLayout (FileText (Some ex_bad_layout)) ex_st in
  alerts st' = [AlertLayoutFormat]
  /\ n_x (nodeAt ex_st 0) = Some (JNum (800 # 2))
  /\ n_y (nodeAt ex_st 0) = Some (JNum (600 # 2))
  /\ n_x (nodeAt st' 0) = Some (JNum 10)
  /\ n_y (nodeAt st' 0) = Some (JNum 20)
  /\ heap st' <> heap ex_st
  /\ sim_alpha (simulation st') = sim_alpha (simulation ex_st).
Proof.
  cbv zeta.
  split; [vm_compute; reflexivity|]. split; [vm_compute; reflexivity|].
  split; [vm_compute; reflexivity|]. split; [vm_compute; reflexivity|].
  split; [vm_compute; reflexivity|]. split; [|vm_compute; reflexivity].
  intros Heq. apply (f_equal (fun h => n_x <$> h !! 0)) in Heq.
  vm_compute in Heq. discriminate.
Qed.

(** ** What no handler changes *)

Lemma applyEntry_static entry st :
  let res := applyEntry entry st in
  data res.2 = data st /\ filteredData res.2 = filteredData st
  /\ map builtFields (heap res.2) = map builtFields (heap st).
Proof.
  unfold applyEntry. destruct (getProp entry "id") as [idv|]; [|done].
  destruct (list_find _ _) as [[i r]|]; [|done].
  simpl. split; [done|]. split; [done|]. by apply map_alter_same.
Qed.

Lemma forEach_applyEntry_static entries st :
  let res := forEach applyEntry entries st in
  data res.2 = data st /\ filteredData res.2 = filteredData st
  /\ map builtFields (heap res.2) = map builtFields (heap st).
Proof.
  revert st. induction entries as [|entry entries IH]; intros st; [done|].
  simpl. destruct (applyEntry_static entry st) as (Hd & Hf & Hh).
  destruct (applyEntry entry st) as [[] st1]; simpl in *; [|done].
  destruct (IH st1) as (Hd' & Hf' & Hh'). simpl in *.
  by rewrite Hd', Hf', Hh'.
Qed.

Lemma applyLayout_static layout st :
  let res := applyLayout layout st in
  data res.2 = data st
  /\ map builtFields (heap res.2) = map builtFields (heap st).
Proof.
  unfold applyLayout. destruct (getProp layout "nodes") as [ns|]; [|done].
  destruct (truthy ns); [|done].
  destruct (getProp layout "links") as [ls|]; [|done].
  destruct (truthy ls); [|done].
  destruct ns as [[| | | |entries|]|]; try done.
  destruct (forEach_applyEntry_static entries st) as (Hd & _ & Hh).
  by destruct (forEach applyEntry entries st) as [[] st1].
Qed.

(** A handler leaves the graph and, in every node object, the id, group,
    degree, neighbour set, original datum and radius as they are. *)
Lemma step_static st st' :
  step st st' ->
  data st' = data st
  /\ map builtFields (heap st') = map builtFields (heap st).
Proof.
  destruct 1; try done.
  - unfold searchNode. case_decide; [done|].
    by destruct (findVisible sid st).
  - destruct (setDisplayMode_frame mode st) as (_ & _ & -> & -> & _). done.
  - destruct file as [|[layout|]]; try done. simpl.
    destruct (applyLayout_static layout st) as [Hd Hh].
    by destruct (applyLayout layout st) as [[] st1].
  - unfold dragStart. split; [by destruct active|].
    simpl. rewrite map_alter_same by done. by destruct active.
  - split; [done|]. by apply map_alter_same.
  - unfold dragEnd. split; [by destruct active|].
    simpl. rewrite map_alter_same by done. by destruct active.
Qed.

(** In every reachable state the graph is the one [preprocessData] returned,
    closed under endpoints, and degree, neighbour set and radius of every
    node are those computed at build time. *)
Lemma reachable_static cfg rnd raw st :
  reachable cfg rnd raw st ->
  data st = builtGraph cfg rnd raw
  /\ GraphClosed (data st)
  /\ map builtFields (heap st) = map builtFields (builtHeap cfg rnd raw).
Proof.
  unfold reachable. intros Hr.
  assert (data st = data (init cfg rnd raw)
          /\ map builtFields (heap st)
             = map builtFields (heap (init cfg rnd raw))) as [Hd Hh].
  { induction Hr as [|st0 st1 st2 Hs _ IH]; [done|].
    destruct (step_static _ _ Hs) as [Hd Hh].
    destruct IH as [Hd' Hh']. by rewrite Hd', Hh'. }
  destruct (init_eq cfg rnd raw) as (Hh0 & Hd0 & _).
  rewrite Hd, Hh, Hd0, Hh0.
  split; [done|]. split; [apply builtGraph_closed | done].
Qed.

(** The degree filter on a reachable state: the visible links are the links
    of the graph between visible nodes. *)
Corollary reachable_filterByDegree cfg rnd raw st d :
  reachable cfg rnd raw st ->
  let v := filteredData (filterByDegree d st) in
  links v
  = filter (fun l => l_source l ∈ nodes v /\ l_target l ∈ nodes v)
           (links (data st)).
Proof.
  intros (_ & Hc & _)%reachable_static. by apply filterByDegree_links.
Qed.

(** * Further properties of the code *)

(** ** [preprocessData] without truncation *)

Lemma filter_none {A : Type} (P : A -> Prop) `{forall a, Decision (P a)}
    (l : list A) :
  (forall a, ~ P a) -> filter P l = [].
Proof.
  intros Hno. induction l as [|a l IH]; [done|].
  rewrite filter_cons, decide_False; auto.
Qed.

(** X1. When the input has at most [maxNodes] nodes, [preprocessData] keeps
    every node, in input order and without a rank attached, and keeps the
    links whose two ids are ids of input nodes: a link naming an unknown id
    is dropped without error.  An input without nodes gives the empty
    graph. *)
Theorem preprocessData_keeps_small_input cfg rnd raw :
  length (raw_nodes raw) <= maxNodes cfg ->
  let h := builtHeap cfg rnd raw in
  let g := builtGraph cfg rnd raw in
  map n_originalData h = raw_nodes raw
  /\ map n_id h = map raw_id (raw_nodes raw)
  /\ nodes g = seq 0 (length (raw_nodes raw))
  /\ map l_originalData (links g)
     = filter (fun l => raw_source l ∈ map raw_id (raw_nodes raw)
                        /\ raw_target l ∈ map raw_id (raw_nodes raw))
              (raw_links raw)
  /\ (raw_nodes raw = [] -> h = [] /\ links g = []).
Proof.
  intros Hle h g. subst h g.
  destruct (truncate_under cfg raw Hle) as [Hns Hls].
  assert (map n_originalData (builtHeap cfg rnd raw) = raw_nodes raw) as Ho
    by (by rewrite builtHeap_originalData).
  assert (map n_id (builtHeap cfg rnd raw) = map raw_id (raw_nodes raw)) as Hi
    by (by rewrite builtHeap_id, Hns).
  assert (map l_originalData (links (builtGraph cfg rnd raw))
          = filter (fun l => raw_source l ∈ map raw_id (raw_nodes raw)
                             /\ raw_target l ∈ map raw_id (raw_nodes raw))
                   (raw_links raw)) as Hl
    by (by rewrite builtGraph_links_originalData, Hls, Hi).
  split; [done|]. split; [done|].
  split.
  { rewrite builtGraph_nodes. f_equal.
    by rewrite <- Ho, length_map. }
  split; [done|].
  intros Hnil. rewrite Hnil in Ho, Hl. split.
  - by destruct (builtHeap cfg rnd raw).
  - simpl in Hl. rewrite filter_none in Hl.
    + by destruct (links (builtGraph cfg rnd raw)).
    + intros l [H _]. inversion H.
Qed.

Lemma preprocessData_keeps_small_input_witness :
  map n_id (builtHeap (ex_cfg 5) ex_rnd ex_raw)
  = map raw_id (raw_nodes ex_raw).
Proof.
  apply (preprocessData_keeps_small_input (ex_cfg 5) ex_rnd ex_raw).
  simpl. lia.
Defined.

(** ** Neighbour sets *)

(** X2. In the returned heap, [b] is in the neighbour set of the node at
    [a] exactly when a returned link joins the two, in either direction.  So
    neighbour sets are symmetric, and every member of a neighbour set is a
    node of the returned array. *)
Theorem neighbors_follow_links cfg rnd raw a na :
  builtHeap cfg rnd raw !! a = Some na ->
  let h := builtHeap cfg rnd raw in
  let ls := links (builtGraph cfg rnd raw) in
  (forall b, b ∈ n_neighbors na <->
             exists l, l ∈ ls /\ ((l_source l = a /\ l_target l = b)
                                  \/ (l_target l = a /\ l_source l = b)))
  /\ (forall b nb, h !! b = Some nb ->
                   (b ∈ n_neighbors na <-> a ∈ n_neighbors nb))
  /\ (forall b, b ∈ n_neighbors na -> b < length h).
Proof.
  intros Ha h ls. subst h ls.
  destruct (builtHeap_node cfg rnd raw a na Ha) as (_ & Hna & _).
  assert (forall b, b ∈ n_neighbors na <->
             exists l, l ∈ links (builtGraph cfg rnd raw)
                       /\ ((l_source l = a /\ l_target l = b)
                           \/ (l_target l = a /\ l_source l = b))) as Hiff.
  { intros b. by rewrite Hna, elem_of_list_to_set, elem_of_neighborsIn. }
  split; [done|]. split.
  - intros b nb Hb.
    destruct (builtHeap_node cfg rnd raw b nb Hb) as (_ & Hnb & _).
    rewrite Hiff, Hnb, elem_of_list_to_set, elem_of_neighborsIn.
    split; intros (l & Hl & Hx); exists l; tauto.
  - intros b (l & Hl & Hx)%Hiff.
    destruct (builtGraph_link_bounds cfg rnd raw l Hl) as [Hs Ht].
    destruct Hx as [[_ <-]|[_ <-]]; done.
Qed.

Lemma neighbors_follow_links_witness :
  exists na, builtHeap (ex_cfg 5) ex_rnd ex_raw !! 3 = Some na
             /\ forall b, b ∈ n_neighbors na -> b < 5.
Proof.
  eexists. split; [reflexivity|].
  apply (neighbors_follow_links (ex_cfg 5) ex_rnd ex_raw 3 _ eq_refl).
Defined.

(** ** The sum of the degrees *)

Lemma sum_indicator k n :
  sum_list_with (fun r => if decide (k = r) then 1 else 0) (seq 0 n)
  = if decide (k < n) then 1 else 0.
Proof.
  induction n as [|n IH]; [done|].
  rewrite seq_S, sum_list_with_app, IH. simpl.
  repeat case_decide; lia.
Qed.

Lemma sum_list_with_plus {A : Type} (f g : A -> nat) (l : list A) :
  sum_list_with (fun a => f a + g a) l
  = sum_list_with f l + sum_list_with g l.
Proof. induction l as [|a l IH]; simpl; lia. Qed.

Lemma sum_list_with_lookup {A B : Type} (f : A -> nat) (g : B -> nat)
    (l : list A) (k : list B) :
  (forall i, f <$> l !! i = g <$> k !! i) ->
  sum_list_with f l = sum_list_with g k.
Proof.
  revert k. induction l as [|a l IH]; intros [|b k] Hi; simpl.
  - done.
  - specialize (Hi 0). done.
  - specialize (Hi 0). done.
  - pose proof (Hi 0) as H0. injection H0 as ->.
    f_equal. apply IH. intros i. apply (Hi (S i)).
Qed.

Lemma sum_degreeIn n ls :
  Forall (fun l => l_source l < n /\ l_target l < n) ls ->
  sum_list_with (fun r => degreeIn r ls) (seq 0 n) = 2 * length ls.
Proof.
  induction 1 as [|l ls [Hs Ht] _ IH].
  - unfold degreeIn. simpl. induction (seq 0 n); simpl; lia.
  - transitivity
      (sum_list_with (fun r => (if decide (l_source l = r) then 1 else 0)
                               + ((if decide (l_target l = r) then 1 else 0)
                                  + degreeIn r ls))
                     (seq 0 n)).
    { apply sum_list_with_lookup. intros i.
      destruct (seq 0 n !! i) as [r|]; simpl; [|done]. f_equal.
      unfold degreeIn. rewrite !filter_cons.
      repeat case_decide; simpl; lia. }
    rewrite !sum_list_with_plus, !sum_indicator, IH.
    rewrite !decide_True by done. simpl. lia.
Qed.

(** X3. The degrees of the returned nodes add up to twice the number of
    returned links. *)
Theorem degrees_sum_to_twice_the_links cfg rnd raw :
  sum_list_with n_degree (builtHeap cfg rnd raw)
  = 2 * length (links (builtGraph cfg rnd raw)).
Proof.
  rewrite <- (sum_degreeIn (length (builtHeap cfg rnd raw))).
  - apply sum_list_with_lookup. intros r.
    destruct (builtHeap cfg rnd raw !! r) as [n|] eqn:Hn; simpl.
    + destruct (builtHeap_node cfg rnd raw r n Hn) as (-> & _).
      apply lookup_lt_Some in Hn. by rewrite lookup_seq_lt.
    + apply lookup_ge_None in Hn. by rewrite lookup_seq_ge.
  - apply Forall_forall. intros l Hl.
    by apply builtGraph_link_bounds.
Qed.

(** ** Nodes that share an id *)

Lemma indexFrom_last h k m i r :
  indexFrom k h m !! i = Some r ->
  forall j n, h !! j = Some n -> n_id n = i -> k + j <= r.
Proof.
  revert k m. induction h as [|a h IH]; intros k m Hr j n Hj Hid; [done|].
  simpl in Hr. destruct j as [|j]; simpl in Hj.
  - injection Hj as ->.
    apply indexFrom_Some in Hr as [Hr|(n' & Hle & _)]; [|lia].
    rewrite Hid, lookup_insert_eq in Hr. injection Hr as <-. lia.
  - specialize (IH _ _ Hr j n Hj Hid). lia.
Qed.

Lemma nodeById_last h i r j n :
  nodeById h !! i = Some r -> h !! j = Some n -> n_id n = i -> j <= r.
Proof. intros Hr Hj Hid. apply (indexFrom_last h 0 ∅ i r Hr j n Hj Hid). Qed.

(** X4. When several input nodes carry one id, every link naming that id is
    attached to the last of them: a returned node that is followed by a node
    of the same id is no endpoint of any returned link, has degree 0 and an
    empty neighbour set. *)
Theorem links_attach_to_last_duplicate cfg rnd raw a b na nb :
  builtHeap cfg rnd raw !! a = Some na ->
  builtHeap cfg rnd raw !! b = Some nb ->
  a < b -> n_id na = n_id nb ->
  (forall l, l ∈ links (builtGraph cfg rnd raw) ->
             l_source l <> a /\ l_target l <> a)
  /\ n_degree na = 0
  /\ n_neighbors na = ∅.
Proof.
  intros Ha Hb Hlt Hid.
  assert (forall l, l ∈ links (builtGraph cfg rnd raw) ->
                    l_source l <> a /\ l_target l <> a) as Hnone.
  { intros l Hl. rewrite builtGraph_eq in Hl. simpl in Hl.
    apply resolved_elem in Hl as (Hs & Ht & _).
    rewrite builtHeap_lookup in Ha, Hb.
    destruct (freshNodes cfg rnd raw !! a) as [fa|] eqn:Hfa; [|done].
    destruct (freshNodes cfg rnd raw !! b) as [fb|] eqn:Hfb; [|done].
    injection Ha as <-. injection Hb as <-. simpl in Hid.
    split; intros Heq.
    - rewrite Heq in Hs.
      destruct (nodeById_Some _ _ _ Hs) as (n & Hn & Hi).
      assert (n = fa) as -> by congruence.
      pose proof (nodeById_last _ _ _ b fb Hs Hfb) as Hle.
      rewrite <- Hid, Hi in Hle. specialize (Hle eq_refl). lia.
    - rewrite Heq in Ht.
      destruct (nodeById_Some _ _ _ Ht) as (n & Hn & Hi).
      assert (n = fa) as -> by congruence.
      pose proof (nodeById_last _ _ _ b fb Ht Hfb) as Hle.
      rewrite <- Hid, Hi in Hle. specialize (Hle eq_refl). lia. }
  split; [done|].
  destruct (builtHeap_node cfg rnd raw a na Ha) as (Hd & Hn & _).
  assert (neighborsIn a (links (builtGraph cfg rnd raw)) = []) as Hnil.
  { destruct (neighborsIn a _) as [|x xs] eqn:Hx; [done|].
    assert (x ∈ neighborsIn a (links (builtGraph cfg rnd raw))) as Hin
      by (rewrite Hx; left).
    apply elem_of_neighborsIn in Hin as (l & Hl & Hcase).
    destruct (Hnone l Hl). tauto. }
  rewrite Hd, Hn, <- neighborsIn_length, Hnil. done.
Qed.

Lemma links_attach_to_last_duplicate_witness :
  exists na, builtHeap (ex_cfg 5) ex_rnd dup_raw !! 0 = Some na
             /\ n_degree na = 0.
Proof.
  eexists. split; [reflexivity|].
  refine (proj1 (proj2
    (links_attach_to_last_duplicate (ex_cfg 5) ex_rnd dup_raw 0 2 _ _
       eq_refl eq_refl _ _))).
  - lia.
  - reflexivity.
Defined.

(** ** Group and position of a new node *)

Section NewNodes.
Variable cfg : Config.
Variable rnd : nat -> Q.
Hypothesis rnd_unit : forall k, (0 <= rnd k < 1)%Q.
Hypothesis width_pos : (0 <= width cfg)%Q.
Hypothesis height_pos : (0 <= height cfg)%Q.

Lemma random_digit k : (0 <= Qfloor (rnd k * 10) <= 9)%Z.
Proof.
  destruct (rnd_unit k) as [H0 H1]. split.
  - change 0%Z with (Qfloor 0). apply Qfloor_resp_le.
    by apply Qmult_le_0_compat.
  - assert (inject_Z (Qfloor (rnd k * 10)) < 10)%Q as Hlt.
    { eapply Qle_lt_trans; [apply Qfloor_le|].
      change 10%Q with (1 * 10)%Q at 2. by apply Qmult_lt_compat_r. }
    change 10%Q with (inject_Z 10) in Hlt. rewrite <- Zlt_Qlt in Hlt.
    by apply Z.lt_succ_r.
Qed.

Lemma random_coordinate k w : (0 <= w)%Q -> (0 <= rnd k * w <= w)%Q.
Proof.
  intros Hw. destruct (rnd_unit k) as [H0 H1]. split.
  - by apply Qmult_le_0_compat.
  - rewrite <- (Qmult_1_l w) at 2.
    apply Qmult_le_compat_r; [by apply Qlt_le_weak | done].
Qed.

Lemma newNode_placed n k : WellPlaced cfg (newNode cfg rnd n k).1.
Proof.
  unfold WellPlaced, newNode.
  destruct (raw_group n) as [g|] eqn:Hg.
  - destruct (g =? 0)%Z eqn:Hz; simpl; rewrite Hg.
    + apply Z.eqb_eq in Hz. rewrite decide_True by done.
      repeat split; try apply random_digit.
      eexists _, _. repeat split; by apply random_coordinate.
    + apply Z.eqb_neq in Hz. rewrite decide_False by done.
      repeat split.
      eexists _, _. repeat split; by apply random_coordinate.
  - simpl. rewrite Hg.
    repeat split; try apply random_digit.
    eexists _, _. repeat split; by apply random_coordinate.
Qed.

Lemma processNodes_placed ns k :
  Forall (WellPlaced cfg) (processNodes cfg rnd ns k).1.
Proof.
  revert k. induction ns as [|n ns IH]; intros k; simpl; [constructor|].
  pose proof (newNode_placed n k) as Hp.
  destruct (newNode cfg rnd n k) as [p k1].
  specialize (IH k1). destruct (processNodes cfg rnd ns k1) as [ps k2].
  by constructor.
Qed.
End NewNodes.

(** X5. When every random draw lies in [[0, 1)] and the layout has
    non-negative width and height, every returned node starts at a position
    within the layout bounds and unpinned.  It keeps a non-zero input group;
    an input group of 0, like a missing one, is replaced by a random group
    between 0 and 9. *)
Theorem new_nodes_are_placed_in_bounds cfg rnd raw n :
  (forall k, (0 <= rnd k < 1)%Q) ->
  (0 <= width cfg)%Q -> (0 <= height cfg)%Q ->
  n ∈ builtHeap cfg rnd raw ->
  WellPlaced cfg n.
Proof.
  intros Hr Hw Hh [r Hn]%list_elem_of_lookup_1.
  rewrite builtHeap_lookup in Hn.
  destruct (freshNodes cfg rnd raw !! r) as [n0|] eqn:Hn0; [|done].
  injection Hn as <-.
  pose proof (processNodes_placed cfg rnd Hr Hw Hh (keptNodes cfg raw) 0) as Ha.
  apply (Forall_lookup_1 _ _ _ _ Ha Hn0).
Qed.

Lemma new_nodes_are_placed_in_bounds_witness :
  WellPlaced (ex_cfg 5) (builtHeap (ex_cfg 5) ex_rnd ex_raw !!! 0).
Proof.
  apply (new_nodes_are_placed_in_bounds (ex_cfg 5) ex_rnd ex_raw).
  - intros k. unfold ex_rnd. split; [discriminate | reflexivity].
  - discriminate.
  - discriminate.
  - apply list_elem_of_lookup_total_2. vm_compute. lia.
Defined.

(** ** Elements, simulation and visible arrays stay in step *)

Lemma SameRendering_refl st : SameRendering st st.
Proof. by repeat split. Qed.

Lemma SameRendering_trans st1 st2 st3 :
  SameRendering st1 st2 -> SameRendering st2 st3 -> SameRendering st1 st3.
Proof.
  intros (?&?&?&?&?&?) (?&?&?&?&?&?). repeat split; congruence.
Qed.

Lemma SameRendering_coherent st st' :
  SameRendering st st' -> Coherent st -> Coherent st'.
Proof.
  intros (Hd & Hf & Hn & Hl & Hsn & Hsl) (H1 & H2 & H3 & H4 & H5 & H6).
  unfold Coherent. rewrite Hd, Hf, Hn, Hl, Hsn, Hsl. done.
Qed.

Lemma clearHighlight_rendering st : SameRendering st (clearHighlight st).
Proof.
  unfold clearHighlight. repeat split; simpl; try done;
    by apply map_map_same.
Qed.

Lemma highlightNode_rendering r st : SameRendering st (highlightNode r st).
Proof.
  split; [done|]. split; [done|].
  rewrite highlightNode_nodeGroup, highlightNode_linkGroup.
  repeat split; try done; by apply map_map_same.
Qed.

Lemma centerOnNode_rendering r st : SameRendering st (centerOnNode r st).
Proof. by repeat split. Qed.

Lemma updatePositions_rendering st : SameRendering st (updatePositions st).
Proof.
  unfold updatePositions. repeat split; simpl; try done;
    by apply map_map_same.
Qed.

Lemma applyEntry_rendering entry st :
  SameRendering st (applyEntry entry st).2.
Proof.
  unfold applyEntry. destruct (getProp entry "id") as [idv|]; simpl;
    [|apply SameRendering_refl].
  destruct (list_find _ _) as [[i r]|]; simpl; by repeat split.
Qed.

Lemma forEach_applyEntry_rendering entries st :
  SameRendering st (forEach applyEntry entries st).2.
Proof.
  revert st. induction entries as [|entry entries IH]; intros st;
    [apply SameRendering_refl|].
  simpl. pose proof (applyEntry_rendering entry st) as He.
  destruct (applyEntry entry st) as [[] st1]; simpl in *; [|done].
  eapply SameRendering_trans; [exact He | apply IH].
Qed.

Lemma applyLayout_rendering layout st :
  SameRendering st (applyLayout layout st).2.
Proof.
  unfold applyLayout.
  destruct (getProp layout "nodes") as [ns|]; [|apply SameRendering_refl].
  destruct (truthy ns); [|apply SameRendering_refl].
  destruct (getProp layout "links") as [ls|]; [|apply SameRendering_refl].
  destruct (truthy ls); [|apply SameRendering_refl].
  destruct ns as [[| | | |entries|]|]; try apply SameRendering_refl.
  pose proof (forEach_applyEntry_rendering entries st) as He.
  destruct (forEach applyEntry entries st) as [[] st1]; simpl in *; [|done].
  eapply SameRendering_trans; [exact He|].
  eapply SameRendering_trans; [apply updatePositions_rendering|].
  by repeat split.
Qed.

Lemma importLayout_rendering file st :
  SameRendering st (importLayout file st).
Proof.
  destruct file as [|[layout|]]; simpl; try by repeat split.
  pose proof (applyLayout_rendering layout st) as He.
  by destruct (applyLayout layout st) as [[] st1].
Qed.

Lemma step_coherent st st' : step st st' -> Coherent st -> Coherent st'.
Proof.
  intros Hs Hc. destruct Hs.
  - apply (SameRendering_coherent st); [|done].
    unfold searchNode. case_decide; [apply SameRendering_refl|].
    destruct (findVisible sid st); [|by repeat split].
    eapply SameRendering_trans; [apply highlightNode_rendering|].
    apply centerOnNode_rendering.
  - apply (SameRendering_coherent st); [|done].
    apply clearHighlight_rendering.
  - apply (SameRendering_coherent st); [|done].
    apply highlightNode_rendering.
  - apply (SameRendering_coherent st); [|done]. by repeat split.
  - apply (SameRendering_coherent st); [|done]. by repeat split.
  - unfold Coherent. simpl.
    repeat split; try (by apply join_data); apply sublist_filter.
  - apply (SameRendering_coherent st); [|done].
    destruct (setDisplayMode_frame mode st) as (? & ? & ? & _ & _ & ? & ?).
    repeat split; try done; congruence.
  - apply (SameRendering_coherent st); [|done]. by repeat split.
  - apply (SameRendering_coherent st); [|done].
    unfold togglePause. simpl. by destruct (negb (isPaused st)).
  - destruct Hc as (H1 & H2 & H3 & H4 & H5 & H6).
    by repeat split.
  - apply (SameRendering_coherent st); [|done].
    apply importLayout_rendering.
  - apply (SameRendering_coherent st); [|done].
    unfold dragStart. by destruct active.
  - apply (SameRendering_coherent st); [|done]. by repeat split.
  - apply (SameRendering_coherent st); [|done].
    unfold dragEnd. by destruct active.
Qed.

Lemma init_coherent cfg rnd raw : Coherent (init cfg rnd raw).
Proof.
  destruct (init_eq cfg rnd raw)
    as (_ & Hd & Hf & _ & Hn & Hl & Hsn & Hsl & _).
  unfold Coherent. by rewrite Hd, Hf, Hn, Hl, Hsn, Hsl.
Qed.

(** X6. In every state the handlers can reach, the rendered node and link
    elements are bound, in order, to the visible arrays, the simulation runs
    on those same arrays, and the visible arrays are parts of the full
    graph, in its order. *)
Theorem reachable_states_are_coherent cfg rnd raw st :
  reachable cfg rnd raw st -> Coherent st.
Proof.
  unfold reachable. revert st.
  apply rtc_ind_r; [apply init_coherent|].
  intros st1 st2 _ Hs IH. by eapply step_coherent.
Qed.

Lemma reachable_states_are_coherent_witness :
  Coherent (filterByDegree 2 (searchNode "4" ex_st)).
Proof.
  apply (reachable_states_are_coherent (ex_cfg 5) ex_rnd ex_raw).
  eapply rtc_l; [apply step_searchNode|].
  eapply rtc_l; [apply step_filterByDegree|]. apply rtc_refl.
Defined.

(** X7. No handler rewrites the graph or what [preprocessData] computed: in
    every reachable state the full graph is the one returned at load time,
    and every node object has the id, group, degree, neighbour set, original
    datum and radius it was built with.  Degree and radius are thus those of
    the full graph, whatever is filtered. *)
Theorem handlers_keep_the_built_graph cfg rnd raw st :
  reachable cfg rnd raw st ->
  data st = builtGraph cfg rnd raw
  /\ map builtFields (heap st) = map builtFields (builtHeap cfg rnd raw)
  /\ (forall r, n_degree (nodeAt st r)
                = n_degree (builtHeap cfg rnd raw !!! r)
                /\ n_radius (nodeAt st r)
                   = n_radius (builtHeap cfg rnd raw !!! r)).
Proof.
  intros (Hd & _ & Hh)%reachable_static.
  split; [done|]. split; [done|].
  intros r. unfold nodeAt.
  assert (builtFields (heap st !!! r)
          = builtFields (builtHeap cfg rnd raw !!! r)) as Heq.
  { rewrite !list_lookup_total_alt.
    apply (f_equal (fun l => l !! r)) in Hh.
    rewrite !map_fmap, !list_lookup_fmap in Hh.
    destruct (heap st !! r), (builtHeap cfg rnd raw !! r); simpl in *;
      congruence. }
  unfold builtFields in Heq. by injection Heq as _ _ -> _ _ ->.
Qed.

Lemma handlers_keep_the_built_graph_witness :
  data (dragMove 1 2 0 (filterByDegree 2 ex_st))
  = builtGraph (ex_cfg 5) ex_rnd ex_raw.
Proof.
  apply (handlers_keep_the_built_graph (ex_cfg 5) ex_rnd ex_raw).
  eapply rtc_l; [apply step_filterByDegree|].
  eapply rtc_l; [apply step_dragMove|]. apply rtc_refl.
Defined.

(** ** A drag gesture *)

Lemma lookup_total_alter_field {B : Type} (f : node -> B) (g : node -> node)
    (h : list node) i j :
  (forall n, f (g n) = f n) -> f (alter g i h !!! j) = f (h !!! j).
Proof.
  intros Hf. rewrite list_lookup_total_alter.
  case_decide as Hd; [|done]. destruct Hd as [-> _]. apply Hf.
Qed.

(** X8. A drag of the node object [r]: the start pins it where it is, a
    move puts the pin at the pointer, the end removes the pin by writing
    [null], whether or not the node was pinned before the drag.  Over the
    whole gesture the script writes no node's x or y and no other node's
    pin; with no other gesture active the alpha target goes to 0.3 at the
    start and back to 0 at the end, and the timer runs. *)
Theorem drag_gesture_pins_and_releases st r ex ey :
  r < length (heap st) ->
  let st1 := dragStart false r st in
  let st2 := dragMove ex ey r st1 in
  let st3 := dragEnd false r st2 in
  (n_fx (nodeAt st1 r) = n_x (nodeAt st r)
   /\ n_fy (nodeAt st1 r) = n_y (nodeAt st r)
   /\ sim_alphaTarget (simulation st1) = (3 # 10)%Q
   /\ sim_running (simulation st1) = true)
  /\ (n_fx (nodeAt st2 r) = Some (JNum ex)
      /\ n_fy (nodeAt st2 r) = Some (JNum ey))
  /\ (n_fx (nodeAt st3 r) = Some JNull /\ n_fy (nodeAt st3 r) = Some JNull
      /\ sim_alphaTarget (simulation st3) = 0%Q
      /\ sim_alpha (simulation st3) = sim_alpha (simulation st))
  /\ (forall r', n_x (nodeAt st3 r') = n_x (nodeAt st r')
                 /\ n_y (nodeAt st3 r') = n_y (nodeAt st r'))
  /\ (forall r', r' <> r -> nodeAt st3 r' = nodeAt st r').
Proof.
  intros Hr st1 st2 st3. subst st1 st2 st3.
  unfold nodeAt, dragEnd, dragMove, dragStart. simpl.
  repeat split;
    try (rewrite list_lookup_total_alter_eq
           by (rewrite ?length_alter; done); done).
  - destruct (decide (r' = r)) as [->|Hne].
    + by rewrite !list_lookup_total_alter_eq by (rewrite ?length_alter; done).
    + by rewrite !list_lookup_total_alter_ne.
  - destruct (decide (r' = r)) as [->|Hne].
    + by rewrite !list_lookup_total_alter_eq by (rewrite ?length_alter; done).
    + by rewrite !list_lookup_total_alter_ne.
  - intros r' Hne. by rewrite !list_lookup_total_alter_ne.
Qed.

Lemma drag_gesture_pins_and_releases_witness :
  n_fx (nodeAt (dragEnd false 0 (dragMove 1 2 0 (dragStart false 0 ex_st))) 0)
  = Some JNull.
Proof.
  apply (drag_gesture_pins_and_releases ex_st 0 1 2).
  vm_compute. lia.
Defined.

(** ** Focus *)

Lemma State_eq (s s' : State) :
  config s = config s' -> heap s = heap s' -> data s = data s' ->
  filteredData s = filteredData s' ->
  currentHighlighted s = currentHighlighted s' ->
  simulation s = simulation s' -> nodeGroup s = nodeGroup s' ->
  linkGroup s = linkGroup s' -> isPaused s = isPaused s' ->
  detailNode s = detailNode s' -> detailActive s = detailActive s' ->
  zoom s = zoom s' -> alerts s = alerts s' -> s = s'.
Proof. destruct s, s'. simpl. intros. by subst. Qed.

Lemma clearHighlight_nodeGroup st :
  nodeGroup (clearHighlight st)
  = map (fun e => setNodeClasses false false (ne_hidden e) e) (nodeGroup st).
Proof. reflexivity. Qed.

Lemma clearHighlight_linkGroup st :
  linkGroup (clearHighlight st)
  = map (fun e => setLinkClasses false (le_hidden e) e) (linkGroup st).
Proof. reflexivity. Qed.

(** X9. Clearing the highlight after a focus leaves no trace of the focus
    but the open detail panel: the state is the one reached by clearing the
    highlight and showing the node's details.  Focusing a second node
    replaces the first: the state is the one reached by focusing the second
    node alone.  Clearing twice is clearing once. *)
Theorem focus_is_replaced_and_cleared st r1 r2 :
  clearHighlight (highlightNode r1 st) = showNodeDetail r1 (clearHighlight st)
  /\ highlightNode r2 (highlightNode r1 st) = highlightNode r2 st
  /\ clearHighlight (clearHighlight st) = clearHighlight st.
Proof.
  split; [|split].
  - apply State_eq; try reflexivity.
    + rewrite clearHighlight_nodeGroup, highlightNode_nodeGroup.
      change (nodeGroup (showNodeDetail r1 (clearHighlight st)))
        with (nodeGroup (clearHighlight st)).
      rewrite clearHighlight_nodeGroup, map_map. by apply map_ext.
    + rewrite clearHighlight_linkGroup, highlightNode_linkGroup.
      change (linkGroup (showNodeDetail r1 (clearHighlight st)))
        with (linkGroup (clearHighlight st)).
      rewrite clearHighlight_linkGroup, map_map. by apply map_ext.
  - apply State_eq; try reflexivity.
    + rewrite !highlightNode_nodeGroup, map_map. by apply map_ext.
    + rewrite !highlightNode_linkGroup, map_map. by apply map_ext.
  - apply State_eq; try reflexivity.
    + rewrite !clearHighlight_nodeGroup, map_map. by apply map_ext.
    + rewrite !clearHighlight_linkGroup, map_map. by apply map_ext.
Qed.

(** ** Facts about reachable states *)

Lemma reachable_coherent cfg rnd raw st :
  reachable cfg rnd raw st -> Coherent st.
Proof.
  unfold reachable. revert st.
  apply rtc_ind_r; [apply init_coherent|].
  intros st1 st2 _ Hs IH. by eapply step_coherent.
Qed.

Lemma keptNodes_NoDup cfg raw :
  NoDup (map raw_id (raw_nodes raw)) ->
  NoDup (map raw_id (keptNodes cfg raw)).
Proof.
  intros Hnd.
  destruct (decide (maxNodes cfg < length (raw_nodes raw))) as [Hlt|Hge].
  - destruct (truncate_over cfg raw Hlt) as [-> _].
    rewrite map_fmap, fmap_take.
    eapply sublist_NoDup; [|apply sublist_take].
    rewrite <- sortDesc_perm. unfold rankedInput.
    by rewrite <- map_fmap, map_map.
  - destruct (truncate_under cfg raw) as [-> _]; [lia | done].
Qed.

Lemma map_lookup_total_seq {B : Type} (f : node -> B) (h : list node) :
  map (fun r => f (h !!! r)) (seq 0 (length h)) = map f h.
Proof.
  apply list_eq. intros i. rewrite !map_fmap, !list_lookup_fmap.
  destruct (h !! i) as [n|] eqn:Hn; simpl.
  - rewrite lookup_seq_lt by by eapply lookup_lt_Some.
    simpl. by rewrite (list_lookup_total_correct _ _ _ Hn).
  - rewrite lookup_seq_ge; [done|]. by apply lookup_ge_None.
Qed.

Lemma reachable_heap cfg rnd raw st :
  reachable cfg rnd raw st ->
  map n_id (heap st) = map raw_id (keptNodes cfg raw)
  /\ nodes (data st) = seq 0 (length (heap st))
  /\ (forall l, l ∈ links (data st) ->
                l_source l < length (heap st) /\ l_target l < length (heap st)).
Proof.
  intros (Hd & _ & Hh)%reachable_static.
  assert (length (heap st) = length (builtHeap cfg rnd raw)) as Hlen.
  { apply (f_equal length) in Hh. by rewrite !length_map in Hh. }
  split; [|split].
  - rewrite <- (builtHeap_id cfg rnd raw).
    apply (f_equal (map (fun p => p.1.1.1.1.1))) in Hh.
    by rewrite !map_map in Hh.
  - by rewrite Hd, builtGraph_nodes, Hlen.
  - intros l Hl. rewrite Hd in Hl. rewrite Hlen.
    by apply builtGraph_link_bounds.
Qed.

Lemma reachable_ids_NoDup cfg rnd raw st :
  reachable cfg rnd raw st ->
  NoDup (map raw_id (raw_nodes raw)) ->
  NoDup (map (fun r => n_id (nodeAt st r)) (nodes (data st))).
Proof.
  intros (Hid & Hn & _)%reachable_heap Hnd.
  rewrite Hn. unfold nodeAt. rewrite (map_lookup_total_seq n_id), Hid.
  by apply keptNodes_NoDup.
Qed.

Lemma reachable_visible_bound cfg rnd raw st r :
  reachable cfg rnd raw st ->
  r ∈ nodes (filteredData st) -> r < length (heap st).
Proof.
  intros Hr Hin.
  destruct (reachable_coherent _ _ _ _ Hr) as (_ & _ & _ & _ & Hsub & _).
  destruct (reachable_heap _ _ _ _ Hr) as (_ & Hn & _).
  eapply elem_of_sublist in Hin; [|exact Hsub].
  rewrite Hn, elem_of_seq in Hin. lia.
Qed.

(** ** The pause flag *)

Lemma setDisplayMode_isPaused mode st :
  isPaused (setDisplayMode mode st).2 = isPaused st.
Proof.
  unfold setDisplayMode, showNeighborsOnly, showAllNodes.
  repeat case_decide; rewrite ?showHighlightedOnly_state; try done.
  by destruct (currentHighlighted st).
Qed.

Lemma applyEntry_isPaused entry st :
  isPaused (applyEntry entry st).2 = isPaused st
  /\ sim_running (simulation (applyEntry entry st).2)
     = sim_running (simulation st).
Proof.
  unfold applyEntry. destruct (getProp entry "id") as [idv|]; [|done].
  by destruct (list_find _ _) as [[i r]|].
Qed.

Lemma forEach_applyEntry_isPaused entries st :
  isPaused (forEach applyEntry entries st).2 = isPaused st
  /\ sim_running (simulation (forEach applyEntry entries st).2)
     = sim_running (simulation st).
Proof.
  revert st. induction entries as [|entry entries IH]; intros st; [done|].
  simpl. destruct (applyEntry_isPaused entry st) as [Hp Hs].
  destruct (applyEntry entry st) as [[] st1]; simpl in *; [|done].
  destruct (IH st1) as [Hp' Hs']. by rewrite Hp', Hs'.
Qed.

Lemma importLayout_isPaused file st :
  isPaused (importLayout file st) = isPaused st
  /\ (sim_running (simulation st) = true ->
      sim_running (simulation (importLayout file st)) = true).
Proof.
  destruct file as [|[layout|]]; try done. simpl. unfold applyLayout.
  destruct (getProp layout "nodes") as [ns|]; [|done].
  destruct (truthy ns); [|done].
  destruct (getProp layout "links") as [ls|]; [|done].
  destruct (truthy ls); [|done].
  destruct ns as [[| | | |entries|]|]; try done.
  destruct (forEach_applyEntry_isPaused entries st) as [Hp Hs].
  destruct (forEach applyEntry entries st) as [[] st1]; simpl in *;
    by rewrite ?Hp, ?Hs.
Qed.

Lemma step_pause st st' :
  step st st' ->
  (isPaused st = false -> sim_running (simulation st) = true) ->
  isPaused st' = false -> sim_running (simulation st') = true.
Proof.
  intros Hs IH. destruct Hs; try done.
  - unfold searchNode. case_decide; [done|].
    by destruct (findVisible sid st).
  - rewrite setDisplayMode_isPaused.
    by destruct (setDisplayMode_frame mode st) as (-> & _).
  - unfold togglePause. simpl. by destruct (isPaused st).
  - destruct (importLayout_isPaused file st) as [-> Hrun]. auto.
  - unfold dragStart. by destruct active.
  - unfold dragEnd. by destruct active.
Qed.

(** X10. The pause flag and the simulation timer.  Whenever the flag is off
    in a reachable state, the script's last word to the timer was to run.
    The converse fails: [togglePause] sets the timer after the new flag, but
    a restart, a degree-filter change and a force-parameter change start the
    timer again and leave the flag as it is, so after a pause they give a
    state that is flagged as paused while its timer runs; the next
    [togglePause] then clears the flag and keeps the timer running. *)
Theorem pause_flag_and_timer cfg rnd raw st :
  reachable cfg rnd raw st ->
  (isPaused st = false -> sim_running (simulation st) = true)
  /\ isPaused (togglePause st) = negb (isPaused st)
  /\ sim_running (simulation (togglePause st)) = isPaused st
  /\ (forall st',
        st' = restartSimulation st
        \/ (exists d, st' = filterByDegree d st)
        \/ (exists c d, st' = updateForceParameters c d st) ->
        isPaused st' = isPaused st
        /\ sim_running (simulation st') = true
        /\ isPaused (togglePause st') = negb (isPaused st)
        /\ sim_running (simulation (togglePause st')) = isPaused st).
Proof.
  intros Hr. split; [|split; [|split]].
  - unfold reachable in Hr. revert st Hr.
    apply (rtc_ind_r (fun st => isPaused st = false
                                -> sim_running (simulation st) = true)).
    + intros _. unfold init.
      by destruct (preprocessData cfg rnd raw) as [h g].
    + intros st1 st2 _ Hs IH. by apply (step_pause st1).
  - done.
  - unfold togglePause. simpl. by destruct (isPaused st).
  - intros st' [->|[[d ->]|(c & d & ->)]]; unfold togglePause; simpl;
      by destruct (isPaused st).
Qed.

Lemma pause_flag_and_timer_witness :
  let st := restartSimulation (togglePause ex_st) in
  isPaused (togglePause st) = negb (isPaused st)
  /\ sim_running (simulation (togglePause st)) = isPaused st.
Proof.
  refine (let H := pause_flag_and_timer (ex_cfg 5) ex_rnd ex_raw
                     (restartSimulation (togglePause ex_st)) _ in
          conj (proj1 (proj2 H)) (proj1 (proj2 (proj2 H)))).
  eapply rtc_l; [apply step_togglePause|].
  eapply rtc_l; [apply step_restartSimulation|]. apply rtc_refl.
Defined.

(** ** Elements are rebound by position *)

Lemma join_lookup {D E : Type} (fresh : D -> E) (bind : D -> E -> E)
    (ds : list D) (es : list E) i :
  join fresh bind ds es !! i
  = (fun d => match es !! i with
              | Some e => bind d e
              | None => fresh d
              end) <$> ds !! i.
Proof.
  revert es i. induction ds as [|d ds IH]; intros es i; [done|].
  destruct es as [|e es], i as [|i]; simpl; try done; by rewrite IH.
Qed.

(** X11. A degree-filter change binds the visible nodes to the elements by
    position: the i-th visible node gets the i-th element there was, which
    keeps its highlighted, neighbor and hidden classes and its drawn
    position, whatever node it showed before; a visible node beyond the old
    elements gets a new element without classes, and elements beyond the
    visible nodes are removed.  Links are treated alike. *)
Theorem filter_rebinds_elements_by_position d st i :
  let st' := filterByDegree d st in
  (forall r, nodes (filteredData st') !! i = Some r ->
     nodeGroup st' !! i
     = Some (match nodeGroup st !! i with
             | Some e => NodeElem r (ne_highlighted e) (ne_neighbor e)
                                  (ne_hidden e) (ne_cx e) (ne_cy e)
             | None => NodeElem r false false false None None
             end))
  /\ (forall l, links (filteredData st') !! i = Some l ->
        linkGroup st' !! i
        = Some (match linkGroup st !! i with
                | Some e => LinkElem l (le_highlighted e) (le_hidden e)
                                     (le_x1 e) (le_y1 e) (le_x2 e) (le_y2 e)
                | None => LinkElem l false false None None None None
                end))
  /\ length (nodeGroup st') = length (nodes (filteredData st'))
  /\ length (linkGroup st') = length (links (filteredData st')).
Proof.
  simpl. split; [|split; [|split]].
  - intros r Hr. rewrite join_lookup, Hr. simpl.
    by destruct (nodeGroup st !! i).
  - intros l Hl. rewrite join_lookup, Hl. simpl.
    by destruct (linkGroup st !! i).
  - rewrite <- (length_map ne_datum). f_equal. by apply join_data.
  - rewrite <- (length_map le_datum). f_equal. by apply join_data.
Qed.

Lemma filter_rebinds_elements_by_position_witness :
  nodeGroup (filterByDegree 2 (searchNode "1" ex_st)) !! 0
  = Some (match nodeGroup (searchNode "1" ex_st) !! 0 with
          | Some e => NodeElem 1 (ne_highlighted e) (ne_neighbor e)
                               (ne_hidden e) (ne_cx e) (ne_cy e)
          | None => NodeElem 1 false false false None None
          end).
Proof.
  apply (filter_rebinds_elements_by_position 2 (searchNode "1" ex_st) 0).
  vm_compute. reflexivity.
Defined.

(** So after the filter a class can sit on the element of another node
    than the one it was set for: with node 0 focused, threshold 2 removes
    node 0 and leaves its highlighted class on the element of node 1. *)
Example stale_highlight_after_filter :
  let st := searchNode "1" ex_st in
  currentHighlighted st = Some 0
  /\ nodes (filteredData (filterByDegree 2 st)) = [1; 2; 3; 4]
  /\ map (fun e => (ne_datum e, ne_highlighted e, ne_neighbor e))
         (nodeGroup (filterByDegree 2 st))
     = [(1, true, false); (2, false, true); (3, false, true);
        (4, false, true)].
Proof.
  split; [by vm_compute|]. split; by vm_compute.
Qed.

(** ** Display modes *)

Lemma filter_id {A : Type} (P : A -> Prop) `{forall a, Decision (P a)}
    (l : list A) :
  (forall a, a ∈ l -> P a) -> filter P l = l.
Proof.
  induction l as [|a l IH]; intros Hall; [done|].
  rewrite filter_cons, decide_True by (apply Hall; left).
  f_equal. apply IH. intros b Hb. apply Hall. by right.
Qed.

(** X12. The mode "all" makes every rendered element visible again: in a
    reachable state the visible elements are then those of the nodes and
    links that pass the degree filter, in order.  It undoes the
    neighbours-only mode and leaves the highlighted and neighbor classes,
    the focus and the simulation as they are. *)
Theorem show_all_shows_the_filtered_graph cfg rnd raw st :
  reachable cfg rnd raw st ->
  let st' := showAllNodes st in
  setDisplayMode "all" st = (Returned, st')
  /\ visibleNodes st' = nodes (filteredData st)
  /\ visibleLinks st' = links (filteredData st)
  /\ showAllNodes (showNeighborsOnly st) = st'
  /\ map (fun e => (ne_highlighted e, ne_neighbor e)) (nodeGroup st')
     = map (fun e => (ne_highlighted e, ne_neighbor e)) (nodeGroup st)
  /\ map le_highlighted (linkGroup st') = map le_highlighted (linkGroup st)
  /\ currentHighlighted st' = currentHighlighted st
  /\ simulation st' = simulation st.
Proof.
  intros (Hn & Hl & _)%reachable_coherent st'. subst st'.
  split; [done|]. unfold visibleNodes, visibleLinks, showAllNodes. simpl.
  split.
  { rewrite filter_id; [by rewrite map_map|].
    by intros e (e0 & -> & _)%list_elem_of_fmap. }
  split.
  { rewrite filter_id; [by rewrite map_map|].
    by intros e (e0 & -> & _)%list_elem_of_fmap. }
  split.
  { unfold showNeighborsOnly. destruct (currentHighlighted st); [|done].
    unfold set_linkGroup, set_nodeGroup. simpl. by rewrite !map_map. }
  by rewrite !map_map.
Qed.

Lemma show_all_shows_the_filtered_graph_witness :
  visibleNodes (showAllNodes (showNeighborsOnly (searchNode "4" ex_st)))
  = nodes (filteredData (showNeighborsOnly (searchNode "4" ex_st))).
Proof.
  refine (proj1 (proj2
    (show_all_shows_the_filtered_graph (ex_cfg 5) ex_rnd ex_raw
       (showNeighborsOnly (searchNode "4" ex_st)) _))).
  eapply rtc_l; [apply step_searchNode|].
  eapply rtc_l; [apply (step_setDisplayMode "neighbors")|]. apply rtc_refl.
Defined.

(** X13. The mode "highlighted" hides nothing.  In a reachable state with a
    visible node or link it ends with an uncaught [TypeError] before any
    class is written; with nothing visible it returns.  Either way the state
    is the one before. *)
Theorem highlighted_mode_changes_nothing cfg rnd raw st :
  reachable cfg rnd raw st ->
  (setDisplayMode "highlighted" st).2 = st
  /\ ((setDisplayMode "highlighted" st).1 = Threw
      <-> nodes (filteredData st) <> [] \/ links (filteredData st) <> []).
Proof.
  intros (Hn & Hl & _)%reachable_coherent.
  change (setDisplayMode "highlighted" st) with (showHighlightedOnly st).
  split; [apply showHighlightedOnly_state|].
  rewrite <- Hn, <- Hl. unfold showHighlightedOnly.
  destruct (nodeGroup st) as [|e es], (linkGroup st) as [|f fs]; simpl.
  - split; [done|]. intros [?|?]; done.
  - split; [intros _; by right | done].
  - split; [intros _; by left | done].
  - split; [intros _; by left | done].
Qed.

Lemma highlighted_mode_changes_nothing_witness :
  (setDisplayMode "highlighted" (searchNode "1" ex_st)).2
  = searchNode "1" ex_st.
Proof.
  refine (proj1 (highlighted_mode_changes_nothing (ex_cfg 5) ex_rnd ex_raw
                   (searchNode "1" ex_st) _)).
  eapply rtc_l; [apply step_searchNode|]. apply rtc_refl.
Defined.

(** ** What a focus marks *)

Lemma reachable_node_fields cfg rnd raw st r :
  reachable cfg rnd raw st ->
  builtFields (nodeAt st r) = builtFields (builtHeap cfg rnd raw !!! r).
Proof.
  intros (_ & _ & Hh)%reachable_static. unfold nodeAt.
  rewrite !list_lookup_total_alt.
  apply (f_equal (fun l => l !! r)) in Hh.
  rewrite !map_fmap, !list_lookup_fmap in Hh.
  destruct (heap st !! r), (builtHeap cfg rnd raw !! r); simpl in *;
    congruence.
Qed.

Lemma reachable_neighbors cfg rnd raw st r b :
  reachable cfg rnd raw st -> r < length (heap st) ->
  b ∈ n_neighbors (nodeAt st r) <->
  exists l, l ∈ links (data st)
            /\ ((l_source l = r /\ l_target l = b)
                \/ (l_target l = r /\ l_source l = b)).
Proof.
  intros Hr Hlt.
  pose proof (reachable_node_fields cfg rnd raw st r Hr) as Hf.
  destruct (reachable_static cfg rnd raw st Hr) as (Hd & _ & Hh).
  assert (length (heap st) = length (builtHeap cfg rnd raw)) as Hlen.
  { apply (f_equal length) in Hh. by rewrite !length_map in Hh. }
  destruct (lookup_lt_is_Some_2 (builtHeap cfg rnd raw) r) as [n Hn]; [lia|].
  rewrite (list_lookup_total_correct _ _ _ Hn) in Hf.
  destruct (builtHeap_node cfg rnd raw r n Hn) as (_ & Hnb & _).
  unfold builtFields in Hf. injection Hf as _ _ _ -> _ _.
  by rewrite Hnb, elem_of_list_to_set, elem_of_neighborsIn, Hd.
Qed.

(** X14. A focus on the node object [r], in a state reached from an input
    whose node ids are distinct: the highlighted class is on exactly the
    elements that show [r]; the neighbor class is on exactly the elements of
    nodes that a link of the full graph joins to [r], in either direction;
    the highlighted class of links is on exactly the elements of links with
    an endpoint at [r].  Classes set by an earlier focus are gone. *)
Theorem focus_marks_node_and_neighbourhood cfg rnd raw st r :
  reachable cfg rnd raw st ->
  NoDup (map raw_id (raw_nodes raw)) ->
  r < length (heap st) ->
  let st' := highlightNode r st in
  Forall (fun e =>
            (ne_highlighted e = true <-> ne_datum e = r)
            /\ (ne_neighbor e = true <->
                exists l, l ∈ links (data st)
                          /\ ((l_source l = r /\ l_target l = ne_datum e)
                              \/ (l_target l = r /\ l_source l = ne_datum e))))
         (nodeGroup st')
  /\ Forall (fun e => le_highlighted e = true <-> incident r (le_datum e))
            (linkGroup st')
  /\ currentHighlighted st' = Some r.
Proof.
  intros Hr Hnd Hlt st'. subst st'.
  pose proof (reachable_ids_NoDup cfg rnd raw st Hr Hnd) as Hids.
  destruct (reachable_coherent cfg rnd raw st Hr)
    as (Hn & Hl & _ & _ & Hsn & Hsl).
  destruct (reachable_heap cfg rnd raw st Hr) as (_ & Hseq & Hb).
  assert (r ∈ nodes (data st)) as Hrin
    by (rewrite Hseq, elem_of_seq; lia).
  assert (forall x, x < length (heap st) -> x ∈ nodes (data st)) as Hin
    by (intros x Hx; rewrite Hseq, elem_of_seq; lia).
  rewrite highlightNode_nodeGroup, highlightNode_linkGroup.
  split; [|split; [|done]].
  - apply Forall_forall. intros e (e0 & -> & He0)%list_elem_of_fmap. simpl.
    assert (ne_datum e0 ∈ nodes (data st)) as Hd.
    { eapply elem_of_sublist; [|exact Hsn]. rewrite <- Hn.
      rewrite map_fmap. apply list_elem_of_fmap. eauto. }
    rewrite !bool_decide_eq_true. split.
    + split; [|by intros ->]. by apply node_of_id.
    + by apply (reachable_neighbors cfg rnd raw).
  - apply Forall_forall. intros e (e0 & -> & He0)%list_elem_of_fmap. simpl.
    assert (le_datum e0 ∈ links (data st)) as Hd.
    { eapply elem_of_sublist; [|exact Hsl]. rewrite <- Hl.
      rewrite map_fmap. apply list_elem_of_fmap. eauto. }
    destruct (Hb _ Hd) as [Hs Ht].
    rewrite bool_decide_eq_true. unfold incident.
    split; (intros [H|H]; [left|right]).
    + apply (node_of_id st); auto.
    + apply (node_of_id st); auto.
    + by rewrite H.
    + by rewrite H.
Qed.

Lemma focus_marks_node_and_neighbourhood_witness :
  Forall (fun e => le_highlighted e = true <-> incident 1 (le_datum e))
         (linkGroup (highlightNode 1 (searchNode "4" ex_st))).
Proof.
  refine (proj1 (proj2
    (focus_marks_node_and_neighbourhood (ex_cfg 5) ex_rnd ex_raw
       (searchNode "4" ex_st) 1 _ _ _))).
  - eapply rtc_l; [apply step_searchNode|]. apply rtc_refl.
  - vm_compute. repeat constructor; set_solver.
  - vm_compute. lia.
Defined.

(** ** The hidden class *)

Lemma SameHiding_refl st : SameHiding st st.
Proof. by split. Qed.

Lemma SameHiding_trans st1 st2 st3 :
  SameHiding st1 st2 -> SameHiding st2 st3 -> SameHiding st1 st3.
Proof. intros [? ?] [? ?]. split; congruence. Qed.

Lemma SameHiding_visible st st' :
  SameHiding st st' ->
  visibleNodes st' = visibleNodes st /\ visibleLinks st' = visibleLinks st.
Proof.
  intros [Hn Hl]. unfold visibleNodes, visibleLinks. split.
  - transitivity
      (map fst (filter (fun p : nat * bool => p.2 = false)
                  (map (fun e => (ne_datum e, ne_hidden e)) (nodeGroup st')))).
    { clear. induction (nodeGroup st') as [|e l IH]; [done|].
      cbn [map]. rewrite !filter_cons. simpl.
      case_decide; simpl; by rewrite IH. }
    rewrite Hn. clear.
    induction (nodeGroup st) as [|e l IH]; [done|].
    cbn [map]. rewrite !filter_cons. simpl.
    case_decide; simpl; by rewrite IH.
  - transitivity
      (map fst (filter (fun p : link * bool => p.2 = false)
                  (map (fun e => (le_datum e, le_hidden e)) (linkGroup st')))).
    { clear. induction (linkGroup st') as [|e l IH]; [done|].
      cbn [map]. rewrite !filter_cons. simpl.
      case_decide; simpl; by rewrite IH. }
    rewrite Hl. clear.
    induction (linkGroup st) as [|e l IH]; [done|].
    cbn [map]. rewrite !filter_cons. simpl.
    case_decide; simpl; by rewrite IH.
Qed.

Lemma highlightNode_hiding r st : SameHiding st (highlightNode r st).
Proof.
  unfold SameHiding.
  rewrite highlightNode_nodeGroup, highlightNode_linkGroup.
  split; by apply map_map_same.
Qed.

Lemma clearHighlight_hiding st : SameHiding st (clearHighlight st).
Proof. unfold clearHighlight. split; simpl; by apply map_map_same. Qed.

Lemma centerOnNode_hiding r st : SameHiding st (centerOnNode r st).
Proof. by split. Qed.

Lemma updatePositions_hiding st : SameHiding st (updatePositions st).
Proof. unfold updatePositions. split; simpl; by apply map_map_same. Qed.

Lemma applyEntry_groups entry st :
  nodeGroup (applyEntry entry st).2 = nodeGroup st
  /\ linkGroup (applyEntry entry st).2 = linkGroup st.
Proof.
  unfold applyEntry. destruct (getProp entry "id") as [idv|]; [|done].
  by destruct (list_find _ _) as [[i r]|].
Qed.

Lemma forEach_applyEntry_groups entries st :
  nodeGroup (forEach applyEntry entries st).2 = nodeGroup st
  /\ linkGroup (forEach applyEntry entries st).2 = linkGroup st.
Proof.
  revert st. induction entries as [|entry entries IH]; intros st; [done|].
  simpl. destruct (applyEntry_groups entry st) as [Hn Hl].
  destruct (applyEntry entry st) as [[] st1]; simpl in *; [|done].
  destruct (IH st1) as [Hn' Hl']. by rewrite Hn', Hl'.
Qed.

Lemma importLayout_hiding file st : SameHiding st (importLayout file st).
Proof.
  destruct file as [|[layout|]]; try by split.
  simpl. unfold applyLayout.
  destruct (getProp layout "nodes") as [ns|]; [|by split].
  destruct (truthy ns); [|by split].
  destruct (getProp layout "links") as [ls|]; [|by split].
  destruct (truthy ls); [|by split].
  destruct ns as [[| | | |entries|]|]; try by split.
  destruct (forEach_applyEntry_groups entries st) as [Hn Hl].
  destruct (forEach applyEntry entries st) as [[] st1]; simpl in *.
  - eapply SameHiding_trans; [|apply (updatePositions_hiding st1)].
    unfold SameHiding. by rewrite Hn, Hl.
  - unfold SameHiding. simpl. by rewrite Hn, Hl.
Qed.

(** X15. The hidden class is written by the display modes alone: a search,
    a focus, clearing the search and a layout import leave the visible
    elements as they are.  In particular the neighbours-only view is not
    brought up to date when the focus moves to another node: it goes on
    showing the neighbourhood of the node that was focused when the mode was
    chosen. *)
Theorem hidden_class_outlives_focus st :
  let same st' :=
    visibleNodes st' = visibleNodes st /\ visibleLinks st' = visibleLinks st in
  (forall sid, same (searchNode sid st))
  /\ (forall r, same (highlightNode r st))
  /\ same (clearSearch st)
  /\ (forall file, same (importLayout file st))
  /\ (forall r, visibleNodes (highlightNode r (showNeighborsOnly st))
                = visibleNodes (showNeighborsOnly st)).
Proof.
  cbv zeta. split; [|split; [|split; [|split]]].
  - intros sid. apply SameHiding_visible. unfold searchNode.
    case_decide; [apply SameHiding_refl|].
    destruct (findVisible sid st); [|by split].
    eapply SameHiding_trans; [apply highlightNode_hiding|].
    apply centerOnNode_hiding.
  - intros r. apply SameHiding_visible, highlightNode_hiding.
  - apply SameHiding_visible, clearHighlight_hiding.
  - intros file. apply SameHiding_visible, importLayout_hiding.
  - intros r. apply SameHiding_visible, highlightNode_hiding.
Qed.

(** The neighbours-only view chosen with node 3 focused still shows nodes
    0 and 3 after the focus has moved to node 1. *)
Example neighbours_view_of_the_old_focus :
  let st := showNeighborsOnly (searchNode "4" ex_st) in
  visibleNodes st = [0; 3]
  /\ currentHighlighted (searchNode "2" st) = Some 1
  /\ visibleNodes (searchNode "2" st) = [0; 3].
Proof.
  split; [by vm_compute|]. split; by vm_compute.
Qed.

(** ** Degree filters in sequence *)

(** X16. Degree filters do not accumulate: the filter is taken from the
    full graph each time, so a second threshold gives the visible arrays it
    would have given alone, whatever the first one hid.  A threshold that no
    degree exceeds shows the full graph; a negative threshold shows
    nothing. *)
Theorem degree_filters_do_not_accumulate st d :
  GraphClosed (data st) ->
  (forall d', filteredData (filterByDegree d (filterByDegree d' st))
              = filteredData (filterByDegree d st))
  /\ ((forall r, r ∈ nodes (data st) ->
                 (Z.of_nat (n_degree (nodeAt st r)) <= d)%Z) ->
      filteredData (filterByDegree d st) = data st)
  /\ ((d < 0)%Z -> filteredData (filterByDegree d st) = MkGraph [] []).
Proof.
  intros Hc. split; [done|]. split.
  - intros Hall. rewrite filterByDegree_filteredData.
    unfold GraphClosed in Hc. rewrite Forall_forall in Hc.
    destruct (data st) as [ns ls] eqn:Hd. simpl in *. f_equal.
    + by apply filter_id.
    + apply filter_id. intros l Hl. destruct (Hc l Hl) as [Hs Ht].
      split; by apply Hall.
  - intros Hneg. rewrite filterByDegree_filteredData. f_equal.
    + apply filter_none. unfold withinDegree. intros r. lia.
    + apply filter_none. unfold withinDegree. intros l. lia.
Qed.

Lemma degree_filters_do_not_accumulate_witness :
  filteredData (filterByDegree 3 ex_st) = data ex_st.
Proof.
  refine (proj1 (proj2 (degree_filters_do_not_accumulate ex_st 3 _)) _).
  - apply init_closed.
  - intros r Hr. change (nodes (data ex_st)) with (seq 0 5) in Hr.
    apply elem_of_seq in Hr.
    destruct r as [|[|[|[|[|r]]]]]; vm_compute; discriminate.
Defined.

(** ** What a layout import moves *)

Lemma applyEntry_filteredData entry st :
  filteredData (applyEntry entry st).2 = filteredData st.
Proof. by destruct (applyEntry_static entry st) as (_ & ? & _). Qed.

Lemma applyEntry_fields entry st r :
  builtFields (nodeAt (applyEntry entry st).2 r) = builtFields (nodeAt st r).
Proof.
  unfold applyEntry. destruct (getProp entry "id") as [idv|]; [|done].
  destruct (list_find _ _) as [[i r']|]; [|done].
  unfold nodeAt. simpl. by apply lookup_total_alter_field.
Qed.

(** [applyEntry] writes at most one node object: a visible one whose id is
    the entry's. *)
Lemma applyEntry_other entry st r :
  r ∉ nodes (filteredData st)
  \/ (forall idv, getProp entry "id" = Some idv ->
                  idEquals (n_id (nodeAt st r)) idv = false) ->
  nodeAt (applyEntry entry st).2 r = nodeAt st r.
Proof.
  intros Hno. unfold applyEntry.
  destruct (getProp entry "id") as [idv|] eqn:Hid; [|done].
  destruct (list_find _ _) as [[i r']|] eqn:Hf; [|done].
  apply list_find_Some in Hf as (Hi & Hm & _).
  apply list_elem_of_lookup_2 in Hi.
  unfold nodeAt. simpl. apply list_lookup_total_alter_ne.
  intros ->. destruct Hno as [Hno|Hno]; [done|].
  specialize (Hno idv eq_refl). unfold nodeAt in *. congruence.
Qed.

Lemma forEach_applyEntry_other entries st r :
  r ∉ nodes (filteredData st)
  \/ Forall (fun entry =>
               forall idv, getProp entry "id" = Some idv ->
                           idEquals (n_id (nodeAt st r)) idv = false)
            entries ->
  nodeAt (forEach applyEntry entries st).2 r = nodeAt st r.
Proof.
  revert st. induction entries as [|entry entries IH]; intros st Hno; [done|].
  simpl.
  pose proof (applyEntry_other entry st r) as Ho.
  pose proof (applyEntry_filteredData entry st) as Hfd.
  pose proof (applyEntry_fields entry st r) as Hbf.
  destruct (applyEntry entry st) as [[] st1]; simpl in *.
  - rewrite IH, Ho; [done| |].
    + destruct Hno as [?|Hall]; [by left|right].
      by apply Forall_inv in Hall.
    + rewrite Hfd. destruct Hno as [?|Hall]; [by left|right].
      apply Forall_inv_tail in Hall.
      unfold builtFields in Hbf. injection Hbf as -> _ _ _ _ _. done.
  - apply Ho. destruct Hno as [?|Hall]; [by left|right].
    by apply Forall_inv in Hall.
Qed.

Lemma applyLayout_heap layout st :
  heap (applyLayout layout st).2 = heap st
  \/ exists entries,
       getProp layout "nodes" = Some (Some (JArr entries))
       /\ heap (applyLayout layout st).2
          = heap (forEach applyEntry entries st).2.
Proof.
  unfold applyLayout.
  destruct (getProp layout "nodes") as [ns|]; [|by left].
  destruct (truthy ns); [|by left].
  destruct (getProp layout "links") as [ls|]; [|by left].
  destruct (truthy ls); [|by left].
  destruct ns as [[| | | |entries|]|]; try by left.
  right. exists entries. split; [done|].
  by destruct (forEach applyEntry entries st) as [[] st1].
Qed.

Lemma importLayout_heap layout st :
  heap (importLayout (FileText (Some layout)) st)
  = heap (applyLayout layout st).2.
Proof. simpl. by destruct (applyLayout layout st) as [[] st1]. Qed.

(** X17. A layout import writes no node object but those of visible nodes
    that an entry of the file names, whether or not the file is then
    reported as malformed: a node that the degree filter hides stays where
    it is even if the file has an entry for it, and so does a node whose id
    no entry carries. *)
Theorem import_moves_named_visible_nodes_only file st r :
  (r ∉ nodes (filteredData st) ->
   nodeAt (importLayout file st) r = nodeAt st r)
  /\ (forall layout entries,
        file = FileText (Some layout) ->
        getProp layout "nodes" = Some (Some (JArr entries)) ->
        Forall (fun entry =>
                  forall idv, getProp entry "id" = Some idv ->
                              idEquals (n_id (nodeAt st r)) idv = false)
               entries ->
        nodeAt (importLayout file st) r = nodeAt st r).
Proof.
  split.
  - intros Hout. destruct file as [|[layout|]]; try done.
    unfold nodeAt. rewrite importLayout_heap.
    destruct (applyLayout_heap layout st) as [->|(entries & _ & ->)];
      [done|].
    apply (forEach_applyEntry_other entries st r). by left.
  - intros layout entries -> Hn Hall.
    unfold nodeAt. rewrite importLayout_heap.
    destruct (applyLayout_heap layout st) as [->|(entries' & Hn' & ->)];
      [done|].
    assert (entries' = entries) as -> by congruence.
    apply (forEach_applyEntry_other entries st r). by right.
Qed.

Lemma import_moves_named_visible_nodes_only_witness :
  nodeAt (importLayout (FileText (Some ex_bad_layout)) (filterByDegree 2 ex_st))
         0
  = nodeAt (filterByDegree 2 ex_st) 0.
Proof.
  refine (proj1 (import_moves_named_visible_nodes_only
                   (FileText (Some ex_bad_layout)) (filterByDegree 2 ex_st) 0)
                _).
  vm_compute. set_solver.
Defined.

(** ** Export, then import *)

Lemma idEquals_idJson i j : idEquals i (Some (idJson j)) = true <-> i = j.
Proof.
  destruct i as [z|s], j as [z'|s']; simpl; try (split; [done | congruence]).
  - rewrite Qeq_bool_iff, inject_Z_injective. split; congruence.
  - rewrite bool_decide_eq_true. split; congruence.
Qed.

Lemma getProp_exportedEntry st r :
  getProp (exportedEntry st r) "id" = Some (Some (idJson (n_id (nodeAt st r))))
  /\ getProp (exportedEntry st r) "x" = Some (n_x (nodeAt st r))
  /\ getProp (exportedEntry st r) "y" = Some (n_y (nodeAt st r))
  /\ getProp (exportedEntry st r) "fx" = Some (n_fx (nodeAt st r))
  /\ getProp (exportedEntry st r) "fy" = Some (n_fy (nodeAt st r)).
Proof.
  unfold exportedEntry, layoutNodeJson. simpl.
  generalize (idJson (n_id (nodeAt st r))). intros j.
  destruct (n_x (nodeAt st r)), (n_y (nodeAt st r)),
           (n_fx (nodeAt st r)), (n_fy (nodeAt st r)); by vm_compute.
Qed.

Lemma NoDup_map_elem_inj {A B : Type} (f : A -> B) (l : list A) a b :
  NoDup (map f l) -> a ∈ l -> b ∈ l -> f a = f b -> a = b.
Proof.
  intros Hnd [i Hi]%list_elem_of_lookup_1 [j Hj]%list_elem_of_lookup_1 Heq.
  rewrite map_fmap in Hnd.
  assert (i = j); [|congruence].
  eapply NoDup_lookup; [exact Hnd| |]; rewrite list_lookup_fmap.
  - rewrite Hi. reflexivity.
  - rewrite Hj. simpl. by rewrite Heq.
Qed.

(** The entry exported for [r] in [st1] is applied to [r] in a state that
    shows the same nodes under the same, distinct ids. *)
Lemma applyEntry_exported st1 s r :
  r ∈ nodes (filteredData s) ->
  (forall r', r' ∈ nodes (filteredData s) ->
              n_id (nodeAt s r') = n_id (nodeAt st1 r')) ->
  NoDup (map (fun r => n_id (nodeAt st1 r)) (nodes (filteredData s))) ->
  applyEntry (exportedEntry st1 r) s
  = (Returned,
     set_heap (alter (setPosition (n_x (nodeAt st1 r)) (n_y (nodeAt st1 r))
                                  (n_fx (nodeAt st1 r)) (n_fy (nodeAt st1 r)))
                     r (heap s)) s).
Proof.
  intros Hr Hids Hnd. unfold applyEntry.
  destruct (getProp_exportedEntry st1 r) as (-> & -> & -> & -> & ->).
  destruct (list_find _ _) as [[i r']|] eqn:Hf.
  - apply list_find_Some in Hf as (Hi & Hm & _).
    apply list_elem_of_lookup_2 in Hi.
    apply idEquals_idJson in Hm. rewrite (Hids r' Hi) in Hm.
    by rewrite (NoDup_map_elem_inj _ _ r' r Hnd Hi Hr Hm).
  - apply list_find_None in Hf. rewrite Forall_forall in Hf.
    exfalso. apply (Hf r Hr). apply idEquals_idJson. by apply Hids.
Qed.

Lemma forEach_exported st1 vs s :
  vs ⊆ nodes (filteredData s) ->
  (forall r', r' ∈ nodes (filteredData s) ->
              n_id (nodeAt s r') = n_id (nodeAt st1 r')) ->
  NoDup (map (fun r => n_id (nodeAt st1 r)) (nodes (filteredData s))) ->
  forEach applyEntry (map (exportedEntry st1) vs) s
  = (Returned,
     set_heap
       (foldl (fun h r =>
                 alter (setPosition (n_x (nodeAt st1 r)) (n_y (nodeAt st1 r))
                                    (n_fx (nodeAt st1 r)) (n_fy (nodeAt st1 r)))
                       r h)
              (heap s) vs) s).
Proof.
  revert s. induction vs as [|r vs IH]; intros s Hsub Hids Hnd.
  - by destruct s.
  - simpl. rewrite applyEntry_exported; [|set_solver|done|done].
    rewrite IH; [done|set_solver| |done].
    intros r' Hr'. rewrite <- (Hids r' Hr'). unfold nodeAt. simpl.
    by apply lookup_total_alter_field.
Qed.

Section FoldAlter.
Variable g : nat -> node -> node.

Lemma foldl_alter_length (vs : list nat) (h : list node) :
  length (foldl (fun (h : list node) r => alter (g r) r h) h vs) = length h.
Proof.
  revert h. induction vs as [|a vs IH]; intros h; [done|].
  simpl. by rewrite IH, length_alter.
Qed.

Lemma foldl_alter_notin (vs : list nat) (h : list node) (r : nat) :
  r ∉ vs -> foldl (fun (h : list node) r => alter (g r) r h) h vs !!! r = h !!! r.
Proof.
  revert h. induction vs as [|a vs IH]; intros h Hr; [done|].
  simpl. rewrite IH by set_solver.
  apply list_lookup_total_alter_ne. set_solver.
Qed.

Lemma foldl_alter_field {B : Type} (f : node -> B) (vs : list nat)
    (h : list node) (r : nat) :
  (forall a n, f (g a n) = f n) ->
  f (foldl (fun (h : list node) r => alter (g r) r h) h vs !!! r) = f (h !!! r).
Proof.
  intros Hf. revert h. induction vs as [|a vs IH]; intros h; [done|].
  simpl. rewrite IH. by apply lookup_total_alter_field.
Qed.

Lemma foldl_alter_in {B : Type} (f : node -> B) (v : nat -> B)
    (vs : list nat) (h : list node) (r : nat) :
  (forall a n, f (g a n) = v a) ->
  r ∈ vs -> r < length h ->
  f (foldl (fun (h : list node) r => alter (g r) r h) h vs !!! r) = v r.
Proof.
  intros Hf Hin Hlt. revert h Hlt.
  induction vs as [|a vs IH] using rev_ind; intros h Hlt; [set_solver|].
  rewrite foldl_app. simpl.
  destruct (decide (r = a)) as [->|Hne].
  - rewrite list_lookup_total_alter_eq by (by rewrite foldl_alter_length).
    apply Hf.
  - rewrite list_lookup_total_alter_ne by done.
    apply IH; [set_solver | done].
Qed.
End FoldAlter.

Lemma getProp_layoutJson lay :
  getProp (layoutJson lay) "nodes"
  = Some (Some (JArr (map layoutNodeJson (lay_nodes lay))))
  /\ getProp (layoutJson lay) "links"
     = Some (Some (JArr (map layoutLinkJson (lay_links lay)))).
Proof.
  unfold layoutJson.
  generalize (JArr (map layoutNodeJson (lay_nodes lay))).
  generalize (JArr (map layoutLinkJson (lay_links lay))).
  generalize (JStr (lay_exportTime lay)).
  generalize (JNum (inject_Z (Z.of_nat (lay_nodeCount lay)))).
  generalize (JNum (inject_Z (Z.of_nat (lay_linkCount lay)))).
  intros a b c d e. split; by vm_compute.
Qed.

Lemma applyLayout_exported exportTime st1 st2 :
  nodes (filteredData st2) = nodes (filteredData st1) ->
  (forall r, r ∈ nodes (filteredData st1) ->
             n_id (nodeAt st2 r) = n_id (nodeAt st1 r)) ->
  NoDup (map (fun r => n_id (nodeAt st1 r)) (nodes (filteredData st1))) ->
  applyLayout (layoutJson (exportLayout exportTime st1)) st2
  = let st' :=
      set_heap
        (foldl (fun h r =>
                  alter (setPosition (n_x (nodeAt st1 r)) (n_y (nodeAt st1 r))
                                     (n_fx (nodeAt st1 r)) (n_fy (nodeAt st1 r)))
                        r h)
               (heap st2) (nodes (filteredData st1))) st2 in
    let st'' := updatePositions st' in
    (Returned,
     set_simulation (Sim.restart (Sim.alpha (1 # 10) (simulation st''))) st'').
Proof.
  intros Hvis Hids Hnd. unfold applyLayout.
  destruct (getProp_layoutJson (exportLayout exportTime st1)) as [-> ->].
  cbn [truthy]. unfold exportLayout. cbn [lay_nodes]. rewrite map_map.
  change (map _ (nodes (filteredData st1)))
    with (map (exportedEntry st1) (nodes (filteredData st1))).
  rewrite forEach_exported; [done| | |].
  - by rewrite Hvis.
  - rewrite Hvis. exact Hids.
  - by rewrite Hvis.
Qed.

Lemma updatePositions_drawn st : Drawn (updatePositions st).
Proof.
  unfold Drawn, updatePositions. simpl. split.
  - apply Forall_forall. by intros e (e0 & -> & _)%list_elem_of_fmap.
  - apply Forall_forall. by intros e (e0 & -> & _)%list_elem_of_fmap.
Qed.

(** X18. Export, then import.  Let [st1] and [st2] show the same nodes,
    under the same ids, distinct among the visible nodes.  Importing into
    [st2] the file that [exportLayout] writes in [st1] gives every visible
    node the x, y, fx and fy it has in [st1], changes nothing else in any
    node object, raises no alert, draws every element at its node's position
    and restarts the simulation at alpha 0.1. *)
Theorem layout_round_trip exportTime st1 st2 :
  nodes (filteredData st2) = nodes (filteredData st1) ->
  (forall r, r ∈ nodes (filteredData st1) ->
             r < length (heap st2)
             /\ n_id (nodeAt st2 r) = n_id (nodeAt st1 r)) ->
  NoDup (map (fun r => n_id (nodeAt st1 r)) (nodes (filteredData st1))) ->
  let file := FileText (Some (layoutJson (exportLayout exportTime st1))) in
  let st3 := importLayout file st2 in
  (forall r, r ∈ nodes (filteredData st1) ->
             placement (nodeAt st3 r) = placement (nodeAt st1 r))
  /\ (forall r, r ∉ nodes (filteredData st1) -> nodeAt st3 r = nodeAt st2 r)
  /\ (forall r, builtFields (nodeAt st3 r) = builtFields (nodeAt st2 r))
  /\ alerts st3 = alerts st2
  /\ Drawn st3
  /\ sim_alpha (simulation st3) = (1 # 10)%Q
  /\ sim_running (simulation st3) = true.
Proof.
  intros Hvis Hsame Hnd file st3. subst file st3.
  unfold importLayout.
  rewrite (applyLayout_exported exportTime st1 st2 Hvis); [|naive_solver|done].
  cbv zeta. unfold nodeAt at 1 3 5. cbn [heap set_simulation updatePositions
    set_nodeGroup set_linkGroup set_heap].
  split; [|split; [|split; [|split; [|split]]]].
  - intros r Hr. destruct (Hsame r Hr) as [Hlt _].
    by apply (foldl_alter_in _ placement (fun r => placement (nodeAt st1 r))).
  - intros r Hr. by apply foldl_alter_notin.
  - intros r. by apply foldl_alter_field.
  - done.
  - apply (updatePositions_drawn (set_heap _ st2)).
  - done.
Qed.

Lemma layout_round_trip_witness :
  placement
    (nodeAt (importLayout
               (FileText (Some (layoutJson
                                  (exportLayout "t" (dragMove 10 20 0 ex_st)))))
               ex_st) 0)
  = placement (nodeAt (dragMove 10 20 0 ex_st) 0).
Proof.
  refine (proj1 (layout_round_trip "t" (dragMove 10 20 0 ex_st) ex_st _ _ _)
                0 _).
  - reflexivity.
  - intros r Hr.
    change (nodes (filteredData (dragMove 10 20 0 ex_st))) with (seq 0 5) in Hr.
    apply elem_of_seq in Hr.
    destruct r as [|[|[|[|[|r]]]]]; [| | | | |lia];
      (split; [vm_compute; lia | vm_compute; reflexivity]).
  - vm_compute. repeat constructor; set_solver.
  - vm_compute. set_solver.
Defined.

(** ** The three outcomes of an import *)

Lemma applyEntry_frame entry st :
  let st' := (applyEntry entry st).2 in
  nodeGroup st' = nodeGroup st /\ linkGroup st' = linkGroup st
  /\ simulation st' = simulation st /\ alerts st' = alerts st.
Proof.
  unfold applyEntry. destruct (getProp entry "id") as [idv|]; [|done].
  by destruct (list_find _ _) as [[i r]|].
Qed.

Lemma forEach_applyEntry_frame entries st :
  let st' := (forEach applyEntry entries st).2 in
  nodeGroup st' = nodeGroup st /\ linkGroup st' = linkGroup st
  /\ simulation st' = simulation st /\ alerts st' = alerts st.
Proof.
  revert st. induction entries as [|entry entries IH]; intros st; [done|].
  simpl. destruct (applyEntry_frame entry st) as (Hn & Hl & Hs & Ha).
  destruct (applyEntry entry st) as [[] st1]; simpl in *; [|done].
  destruct (IH st1) as (Hn' & Hl' & Hs' & Ha'). simpl in *.
  by rewrite Hn', Hl', Hs', Ha'.
Qed.

(** X19. An import ends in one of three ways.  It is ignored: the state is
    the one before, without any message.  It is applied: no alert, every
    element is drawn at its node's position and the simulation is restarted
    at alpha 0.1.  Or it is reported as malformed: one alert, no element is
    redrawn and the simulation is not touched, whatever entries were applied
    before the failure. *)
Theorem import_is_ignored_applied_or_reported file st :
  let st' := importLayout file st in
  st' = st
  \/ (alerts st' = alerts st /\ Drawn st'
      /\ sim_alpha (simulation st') = (1 # 10)%Q
      /\ sim_running (simulation st') = true)
  \/ (alerts st' = alerts st ++ [AlertLayoutFormat]
      /\ nodeGroup st' = nodeGroup st /\ linkGroup st' = linkGroup st
      /\ simulation st' = simulation st).
Proof.
  destruct file as [|[layout|]]; simpl; [by left| |by right; right].
  unfold applyLayout.
  destruct (getProp layout "nodes") as [ns|]; [|by right; right].
  destruct (truthy ns); [|by left].
  destruct (getProp layout "links") as [ls|]; [|by right; right].
  destruct (truthy ls); [|by left].
  destruct ns as [[| | | |entries|]|]; try by (right; right).
  destruct (forEach_applyEntry_frame entries st) as (Hn & Hl & Hs & Ha).
  destruct (forEach applyEntry entries st) as [[] st1]; simpl in *.
  - right; left. split; [done|]. split; [|done].
    apply (updatePositions_drawn st1).
  - right; right. by rewrite Hn, Hl, Hs, Ha.
Qed.

(** ** Imports and nodes that share an id *)

Lemma StronglySorted_sublist {A : Type} (R : relation A) (l k : list A) :
  l `sublist_of` k -> StronglySorted R k -> StronglySorted R l.
Proof.
  induction 1 as [|x l k Hs IH|x l k Hs IH]; intros Hk; [done| |].
  - apply StronglySorted_inv in Hk as [Hk Hx].
    constructor; [by apply IH|].
    apply Forall_forall. intros y Hy. rewrite Forall_forall in Hx.
    apply Hx. by eapply elem_of_sublist.
  - apply StronglySorted_inv in Hk as [Hk _]. by apply IH.
Qed.

Lemma StronglySorted_seq k n : StronglySorted lt (seq k n).
Proof.
  revert k. induction n as [|n IH]; intros k; simpl; constructor; [done|].
  apply Forall_forall. intros y Hy%elem_of_seq. lia.
Qed.

Lemma StronglySorted_lookup_lt {A : Type} (R : relation A) (l : list A)
    i j a b :
  StronglySorted R l -> l !! i = Some a -> l !! j = Some b -> i < j -> R a b.
Proof.
  intros Hl. revert i j. induction Hl as [|x l Hl IH Hx]; intros i j; [done|].
  destruct i as [|i], j as [|j]; simpl; intros Ha Hb Hlt; try lia.
  - injection Ha as <-. by eapply Forall_lookup_1.
  - apply (IH i j); [done|done|lia].
Qed.

Lemma reachable_visible_sorted cfg rnd raw st :
  reachable cfg rnd raw st -> StronglySorted lt (nodes (filteredData st)).
Proof.
  intros Hr.
  destruct (reachable_coherent _ _ _ _ Hr) as (_ & _ & _ & _ & Hsub & _).
  destruct (reachable_heap _ _ _ _ Hr) as (_ & Hn & _).
  eapply StronglySorted_sublist; [exact Hsub|].
  rewrite Hn. apply StronglySorted_seq.
Qed.

Lemma applyEntry_first_duplicate entry st r1 r2 :
  StronglySorted lt (nodes (filteredData st)) ->
  r1 ∈ nodes (filteredData st) -> r1 < r2 ->
  n_id (nodeAt st r1) = n_id (nodeAt st r2) ->
  nodeAt (applyEntry entry st).2 r2 = nodeAt st r2.
Proof.
  intros Hs [i1 Hi1]%list_elem_of_lookup_1 Hlt Hid. unfold applyEntry.
  destruct (getProp entry "id") as [idv|] eqn:Hidv; [|done].
  destruct (list_find _ _) as [[i r']|] eqn:Hf; [|done].
  apply list_find_Some in Hf as (Hi & Hm & Hfirst).
  unfold nodeAt. simpl. apply list_lookup_total_alter_ne. intros ->.
  destruct (Nat.lt_trichotomy i1 i) as [Hlt'|[->|Hgt]].
  - apply (Hfirst i1 r1 Hi1 Hlt'). by rewrite Hid.
  - assert (r1 = r2) by congruence. lia.
  - pose proof (StronglySorted_lookup_lt lt _ _ _ _ _ Hs Hi Hi1 Hgt). lia.
Qed.

Lemma forEach_first_duplicate entries st r1 r2 :
  StronglySorted lt (nodes (filteredData st)) ->
  r1 ∈ nodes (filteredData st) -> r1 < r2 ->
  n_id (nodeAt st r1) = n_id (nodeAt st r2) ->
  nodeAt (forEach applyEntry entries st).2 r2 = nodeAt st r2.
Proof.
  revert st. induction entries as [|entry entries IH];
    intros st Hs Hr1 Hlt Hid; [done|].
  simpl.
  pose proof (applyEntry_first_duplicate entry st r1 r2 Hs Hr1 Hlt Hid) as Ho.
  pose proof (applyEntry_filteredData entry st) as Hfd.
  pose proof (applyEntry_fields entry st r1) as Hb1.
  pose proof (applyEntry_fields entry st r2) as Hb2.
  destruct (applyEntry entry st) as [[] st1]; simpl in *; [|done].
  rewrite IH, Ho; [done| | |done|].
  - by rewrite Hfd.
  - by rewrite Hfd.
  - unfold builtFields in Hb1, Hb2.
    injection Hb1 as -> _ _ _ _ _. injection Hb2 as -> _ _ _ _ _. done.
Qed.

(** X20. Where two nodes carry one id, a layout import finds the first of
    them for every entry with that id: in a reachable state, a node that
    comes after a visible node of the same id is never written by an
    import, whatever the file holds. *)
Theorem import_writes_the_first_of_an_id cfg rnd raw st file r1 r2 :
  reachable cfg rnd raw st ->
  r1 ∈ nodes (filteredData st) -> r1 < r2 ->
  n_id (nodeAt st r1) = n_id (nodeAt st r2) ->
  nodeAt (importLayout file st) r2 = nodeAt st r2.
Proof.
  intros Hr Hr1 Hlt Hid.
  destruct file as [|[layout|]]; try done.
  unfold nodeAt. rewrite importLayout_heap.
  destruct (applyLayout_heap layout st) as [->|(entries & _ & ->)]; [done|].
  apply (forEach_first_duplicate entries st r1 r2); try done.
  by eapply reachable_visible_sorted.
Qed.

Lemma import_writes_the_first_of_an_id_witness :
  let st := dragMove 10 20 2 (init (ex_cfg 5) ex_rnd dup_raw) in
  nodeAt (importLayout (FileText (Some (layoutJson (exportLayout "t" st)))) st)
         2
  = nodeAt st 2.
Proof.
  apply (import_writes_the_first_of_an_id (ex_cfg 5) ex_rnd dup_raw _ _ 0 2).
  - eapply rtc_l; [apply step_dragMove|]. apply rtc_refl.
  - vm_compute. set_solver.
  - lia.
  - reflexivity.
Defined.

(** A file that [exportLayout] wrote in that very state therefore does not
    restore it: the entry of the later node is applied to the earlier one.
    Here nodes 0 and 2 share the id 7 and node 2 is pinned; after the round
    trip node 0 carries the pin. *)
Example export_import_with_shared_id :
  let st := dragMove 10 20 2 (init (ex_cfg 5) ex_rnd dup_raw) in
  let st' :=
    importLayout (FileText (Some (layoutJson (exportLayout "t" st)))) st in
  map n_id (heap st) = [IdNum 7; IdNum 8; IdNum 7]
  /\ map n_fx (heap st) = [None; None; Some (JNum 10)]
  /\ map n_fx (heap st') = [Some (JNum 10); None; Some (JNum 10)]
  /\ alerts st' = [].
Proof.
  split; [by vm_compute|]. split; [by vm_compute|]. split; by vm_compute.
Qed.
